(** * PD-StartGate: the start-gate solenoid controller

    A shallow embedding of [loop()] of [PD-StartGate.ino] (Arduino Uno) and
    the properties of its state machine and of its dwell.  The routine is
    written in a small state-and-log monad: the state is the board (the pin
    levels and the values [millis()] is still to deliver), the log is the
    list of events the routine performs, in program order. *)

From Stdlib Require Import ZArith List Bool Lia QArith.
Import ListNotations.
Open Scope Z_scope.

(** ** Types *)

(** On the Uno [unsigned int] has 16 bits and [unsigned long] 32; a value
    stored in one of them is reduced modulo its width.  [state] is an
    [unsigned char] that only ever receives the constants 1 to 4. *)
Definition UINT16 (z : Z) : Z := z mod 2 ^ 16.
Definition UINT32 (z : Z) : Z := z mod 2 ^ 32.

(** ** Port pin defines *)

Definition SCOPE_PIN : Z := 8.
Definition SW_OPEN : Z := 10.
Definition SW_DISABLE : Z := 11.
Definition SOLENOID_EN : Z := 12.
Definition LED_DISABLE : Z := 13.

Definition HIGH : bool := true.
Definition LOW : bool := false.

(** ** Switch, states, solenoid *)

Definition DEBOUNCE_MS : Z := 20.

Definition S_WAIT_FOR_ENABLE : Z := 1.
Definition S_WAIT_FOR_OPEN : Z := 2.
Definition S_OPEN : Z := 3.
Definition S_CLOSE : Z := 4.

Definition SOLENOID_TIME_ON_MS : Z := 500.
Definition SOLENOID_TIME_OFF_MS : Z := 5000.

(** ** The board and the monad *)

(** [pins] gives the level of every pin; [clock] lists the values the coming
    calls of [millis()] return, in order. *)
Record world : Type := World {
  pins : Z -> bool;
  clock : list Z
}.

(** What the routine does to the outside, plus one marker per pass of the
    catch-up loop: [TimerTick true] when that pass ran [delay_ms--],
    [TimerTick false] when it found [delay_ms] already 0. *)
Inductive event : Type :=
| DigitalRead (pin : Z) (v : bool)
| DigitalWrite (pin : Z) (v : bool)
| Millis (t : Z)
| TimerTick (decremented : bool).

(** A computation either finishes with a value, or is still waiting when the
    clock readings run out; both carry the board and the events so far. *)
Inductive result (A : Type) : Type :=
| Done (a : A) (w : world) (evs : list event)
| Starved (w : world) (evs : list event).
Arguments Done {A} a w evs.
Arguments Starved {A} w evs.

Definition M (A : Type) : Type := world -> result A.

Definition ret {A} (a : A) : M A := fun w => Done a w [].

Definition bind {A B} (m : M A) (k : A -> M B) : M B :=
  fun w =>
    match m w with
    | Done a w1 e1 =>
        match k a w1 with
        | Done b w2 e2 => Done b w2 (e1 ++ e2)
        | Starved w2 e2 => Starved w2 (e1 ++ e2)
        end
    | Starved w1 e1 => Starved w1 e1
    end.

Declare Scope gate_scope.
Delimit Scope gate_scope with gate.
Notation "x <- m ;; k" := (bind m (fun x => k))
  (at level 61, m at next level, right associativity) : gate_scope.
Notation "' p <- m ;; k" := (bind m (fun x => match x with p => k end))
  (at level 61, p pattern, m at next level, right associativity) : gate_scope.
Notation "m ;; k" := (bind m (fun _ => k))
  (at level 61, right associativity) : gate_scope.
Open Scope gate_scope.

Definition digitalRead (pin : Z) : M bool :=
  fun w => Done (pins w pin) w [DigitalRead pin (pins w pin)].

Definition digitalWrite (pin : Z) (v : bool) : M unit :=
  fun w =>
    Done tt (World (fun p => if p =? pin then v else pins w p) (clock w))
         [DigitalWrite pin v].

Definition millis : M Z :=
  fun w =>
    match clock w with
    | [] => Starved w []
    | t :: later => Done (UINT32 t) (World (pins w) later) [Millis (UINT32 t)]
    end.

Definition timer_tick (decremented : bool) : M unit :=
  fun w => Done tt w [TimerTick decremented].

(** ** [loop()] *)

(** The [switch (state)] statement: returns the new [state] and [delay_ms].
    [&&] reads [SW_OPEN] only when [SW_DISABLE] read HIGH, and the
    [else if] reads it only when [SW_DISABLE] read HIGH as well. *)
Definition step (state : Z) : M (Z * Z) :=
  if state =? S_WAIT_FOR_ENABLE then
    d <- digitalRead SW_DISABLE ;;
    c <- (if d then digitalRead SW_OPEN else ret false) ;;
    let state := if c then S_WAIT_FOR_OPEN else state in
    digitalWrite SOLENOID_EN LOW ;;
    digitalWrite LED_DISABLE HIGH ;;
    ret (state, DEBOUNCE_MS)
  else if state =? S_WAIT_FOR_OPEN then
    d <- digitalRead SW_DISABLE ;;
    state <- (if negb d then ret S_WAIT_FOR_ENABLE
              else o <- digitalRead SW_OPEN ;;
                   ret (if negb o then S_OPEN else state)) ;;
    digitalWrite SOLENOID_EN LOW ;;
    digitalWrite LED_DISABLE LOW ;;
    ret (state, DEBOUNCE_MS)
  else if state =? S_OPEN then
    let state := S_CLOSE in
    digitalWrite LED_DISABLE HIGH ;;
    digitalWrite SOLENOID_EN HIGH ;;
    ret (state, SOLENOID_TIME_ON_MS)
  else if state =? S_CLOSE then
    let state := S_WAIT_FOR_ENABLE in
    digitalWrite SOLENOID_EN LOW ;;
    ret (state, SOLENOID_TIME_OFF_MS)
  else
    let state := S_WAIT_FOR_ENABLE in
    digitalWrite SOLENOID_EN LOW ;;
    ret (state, DEBOUNCE_MS).

(** [while (time_last != time_cur) { if (delay_ms) delay_ms--; time_last++; }]
    Both counters are UINT16, so the loop body runs fewer than 2^16 times;
    [fuel] bounds the passes and [catch_up_total] shows 2^16 is enough. *)
Fixpoint catch_up (fuel : nat) (delay_ms time_last time_cur : Z) : M (Z * Z) :=
  if time_last =? time_cur then ret (delay_ms, time_last)
  else
    match fuel with
    | O => fun w => Starved w []
    | S fuel' =>
        delay_ms' <- (if delay_ms =? 0 then timer_tick false ;; ret delay_ms
                      else timer_tick true ;; ret (UINT16 (delay_ms - 1))) ;;
        catch_up fuel' delay_ms' (UINT16 (time_last + 1)) time_cur
    end.

(** [while (delay_ms) { toggle the scope pin; time_cur = millis(); catch up }]
    Every pass takes one reading of the clock, so with [n] readings left the
    loop makes at most [n] full passes and starves in pass [n + 1] at
    [millis()]; [polls] counts the passes still allowed. *)
Fixpoint wait_loop (polls : nat) (delay_ms time_last : Z) : M (Z * Z) :=
  if delay_ms =? 0 then ret (delay_ms, time_last)
  else
    match polls with
    | O => fun w => Starved w []
    | S polls' =>
        s <- digitalRead SCOPE_PIN ;;
        digitalWrite SCOPE_PIN (negb s) ;;
        t <- millis ;;
        let time_cur := UINT16 t in
        '(delay_ms', time_last') <-
          catch_up (Z.to_nat (2 ^ 16)) delay_ms time_last time_cur ;;
        wait_loop polls' delay_ms' time_last'
    end.

(** The dwell: [time_last = millis();] and the [while (delay_ms)] loop.
    Returns the final [delay_ms] and [time_last]. *)
Definition wait (delay_ms : Z) : M (Z * Z) :=
  t <- millis ;;
  let time_last := UINT16 t in
  fun w => wait_loop (S (length (clock w))) delay_ms time_last w.

(** One call of [loop()]; the static [state] is passed in and returned. *)
Definition loop (state : Z) : M Z :=
  '(state', delay_ms) <- step state ;;
  wait delay_ms ;;
  digitalWrite SOLENOID_EN LOW ;;
  ret state'.

(** ** Reading a result, its log and the switches *)

Definition events_of {A} (r : result A) : list event :=
  match r with Done _ _ evs | Starved _ evs => evs end.

Definition world_of {A} (r : result A) : world :=
  match r with Done _ w _ | Starved w _ => w end.

(** Sequencing, seen from the result. *)
Definition prepend {A} (e1 : list event) (r : result A) : result A :=
  match r with
  | Done a w e2 => Done a w (e1 ++ e2)
  | Starved w e2 => Starved w (e1 ++ e2)
  end.

(** The switches pull their pin LOW when pressed. *)
Definition asserted (w : world) (switch : Z) : bool := negb (pins w switch).

(** The environment sets the two switches before an iteration. *)
Definition set_switches (disable open : bool) (w : world) : world :=
  World (fun p => if p =? SW_DISABLE then negb disable
                  else if p =? SW_OPEN then negb open
                  else pins w p)
        (clock w).

(** The levels written to [pin], in order. *)
Fixpoint writes_to (pin : Z) (evs : list event) : list bool :=
  match evs with
  | [] => []
  | DigitalWrite p v :: evs' =>
      if p =? pin then v :: writes_to pin evs' else writes_to pin evs'
  | _ :: evs' => writes_to pin evs'
  end.

(** The pins read, in order. *)
Fixpoint reads (evs : list event) : list Z :=
  match evs with
  | [] => []
  | DigitalRead p _ :: evs' => p :: reads evs'
  | _ :: evs' => reads evs'
  end.

(** The markers of the catch-up loop, in order. *)
Fixpoint ticks (evs : list event) : list bool :=
  match evs with
  | [] => []
  | TimerTick b :: evs' => b :: ticks evs'
  | _ :: evs' => ticks evs'
  end.

(** The events the dwell may produce: scope-pin traffic, clock readings and
    catch-up markers; no switch is read, no other pin written. *)
Definition dwell_event (e : event) : Prop :=
  match e with
  | DigitalRead p _ | DigitalWrite p _ => p = SCOPE_PIN
  | Millis _ | TimerTick _ => True
  end.

(** What holds of the polling loop for any arguments and any outcome: only
    dwell events, only the scope pin changes, and it can only return with
    [delay_ms] 0. *)
Definition dwell_result (w : world) (r : result (Z * Z)) : Prop :=
  Forall dwell_event (events_of r) /\
  (forall p, p <> SCOPE_PIN -> pins (world_of r) p = pins w p) /\
  match r with
  | Done (d', _) _ _ => d' = 0
  | Starved _ _ => True
  end.

(** ** Clocks *)

(** The number of ticks the catch-up loop sees in one poll: the distance from
    [time_last] up to [time_cur] in 16-bit arithmetic. *)
Definition seen (time_last time_cur : Z) : Z := UINT16 (time_cur - time_last).

(** The ticks the dwell sees if it polls all of [readings]. *)
Fixpoint observed (time_last : Z) (readings : list Z) : Z :=
  match readings with
  | [] => 0
  | t :: later => seen time_last (UINT16 t) + observed (UINT16 t) later
  end.

(** A clock that starts at [t] and has advanced by the listed numbers of
    ticks between one call of [millis()] and the next. *)
Fixpoint timeline (t : Z) (gaps : list Z) : list Z :=
  match gaps with
  | [] => []
  | g :: gaps' => (t + g) :: timeline (t + g) gaps'
  end.

Definition total (gaps : list Z) : Z := fold_right Z.add 0 gaps.

(** The markers of [g] ticks met with [d] left to count down. *)
Definition marks (d g : Z) : list bool :=
  repeat true (Z.to_nat (Z.min d g)) ++ repeat false (Z.to_nat (g - Z.min d g)).

(** ** Executions *)

(** A test harness for the state machine alone: before each step the
    switches are set as listed; each step reports the new state, the level
    of the solenoid line after it, and the dwell it asks for. *)
Fixpoint scenario (inputs : list (bool * bool)) (state : Z) (w : world)
  : list (Z * bool * Z) :=
  match inputs with
  | [] => []
  | (disable, open) :: rest =>
      match step state (set_switches disable open w) with
      | Done (state', delay_ms) w' _ =>
          (state', pins w' SOLENOID_EN, delay_ms) :: scenario rest state' w'
      | Starved _ _ => []
      end
  end.

(** The cycle of the specification, step by step: the switches before each
    of five steps, the last two left open. *)
Definition cycle_inputs (d4 o4 d5 o5 : bool) : list (bool * bool) :=
  [(false, false); (false, false); (false, true); (d4, o4); (d5, o5)].

(** The executions of the sketch: [state] starts as [S_WAIT_FOR_ENABLE], on
    any board; [loop()] is called again and again; between calls the world
    outside may move the two switches and the clock, nothing else. *)
Inductive reachable : Z -> world -> Prop :=
| reach_start (w : world) : reachable S_WAIT_FOR_ENABLE w
| reach_loop (state : Z) (w : world) (state' : Z) (w' : world) evs :
    reachable state w ->
    loop state w = Done state' w' evs ->
    reachable state' w'
| reach_env (state : Z) (w w' : world) :
    reachable state w ->
    (forall p, p <> SW_OPEN -> p <> SW_DISABLE -> pins w' p = pins w p) ->
    reachable state w'.

(** A sample execution: at rest, then open pressed, then the pulse. *)
Definition board0 : world :=
  World (fun _ => HIGH) [0; 20; 20; 40; 40; 300; 540].
Definition board1 : world := world_of (loop S_WAIT_FOR_ENABLE board0).
Definition board2 : world :=
  world_of (loop S_WAIT_FOR_OPEN (set_switches false true board1)).
Definition board3 : world := world_of (loop S_OPEN board2).

(** ** The main program *)

(** The core calls [loop()] again and again.  A call samples the switches
    once, in its switch statement, so it is enough to let the world outside
    set them before each call; [inputs] lists (disable pressed, open
    pressed) call by call.  The run stops where the clock readings end. *)
Fixpoint run (inputs : list (bool * bool)) (state : Z) : M Z :=
  match inputs with
  | [] => ret state
  | (disable, open) :: rest =>
      fun w => bind (loop state) (run rest) (set_switches disable open w)
  end.

(** The number of times the log drives the solenoid line HIGH. *)
Definition pulses (evs : list event) : nat :=
  count_occ bool_dec (writes_to SOLENOID_EN evs) HIGH.

(** Calls that start with open pressed and disable released, and calls that
    start with both switches released. *)
Definition presses (inputs : list (bool * bool)) : nat :=
  length (filter (fun i => negb (fst i) && snd i) inputs).

Definition clears (inputs : list (bool * bool)) : nat :=
  length (filter (fun i => negb (fst i) && negb (snd i)) inputs).

(** The clock readings taken, in order. *)
Fixpoint readings (evs : list event) : list Z :=
  match evs with
  | [] => []
  | Millis t :: evs' => t :: readings evs'
  | _ :: evs' => readings evs'
  end.

(** Of the dwells a scenario asks for, the sum of all and the sum of those
    spent with the solenoid line HIGH. *)
Fixpoint requested (steps : list (Z * bool * Z)) : Z :=
  match steps with
  | [] => 0
  | (_, _, delay_ms) :: rest => delay_ms + requested rest
  end.

Fixpoint energized (steps : list (Z * bool * Z)) : Z :=
  match steps with
  | [] => 0
  | (_, solenoid, delay_ms) :: rest =>
      (if solenoid then delay_ms else 0) + energized rest
  end.

(** The levels [k] successive toggles write to a pin that is at [v]. *)
Fixpoint toggles (k : nat) (v : bool) : list bool :=
  match k with
  | O => []
  | S k' => negb v :: toggles k' (negb v)
  end.

(** ** The transition table of the specification *)

(** The four states, and for each the row of the table: next state by the
    two inputs, actuator, indicator (kept as it is in [Close]) and dwell. *)
Inductive GateState : Type := WaitForEnable | WaitForOpen | Open | Close.

Definition code_of (g : GateState) : Z :=
  match g with
  | WaitForEnable => S_WAIT_FOR_ENABLE
  | WaitForOpen => S_WAIT_FOR_OPEN
  | Open => S_OPEN
  | Close => S_CLOSE
  end.

Definition table_next (g : GateState) (disable open : bool) : GateState :=
  match g with
  | WaitForEnable =>
      if negb disable && negb open then WaitForOpen else WaitForEnable
  | WaitForOpen =>
      if disable then WaitForEnable else if open then Open else WaitForOpen
  | Open => Close
  | Close => WaitForEnable
  end.

Definition table_actuator (g : GateState) : bool :=
  match g with Open => true | _ => false end.

Definition table_indicator (g : GateState) (before : bool) : bool :=
  match g with
  | WaitForEnable | Open => true
  | WaitForOpen => false
  | Close => before
  end.

Definition table_dwell (g : GateState) : Z :=
  match g with
  | WaitForEnable | WaitForOpen => 20
  | Open => 500
  | Close => 5000
  end.

(** The state a value of [state] stands for, if any. *)
Definition decode (state : Z) : option GateState :=
  if state =? S_WAIT_FOR_ENABLE then Some WaitForEnable
  else if state =? S_WAIT_FOR_OPEN then Some WaitForOpen
  else if state =? S_OPEN then Some Open
  else if state =? S_CLOSE then Some Close
  else None.

(** ** [setup()] *)


Inductive pin_mode : Type := INPUT | OUTPUT | INPUT_PULLUP.

(** [setup()] also configures pins and sleeps; its log has events for these
    beside the pin traffic of [loop()]. *)
Inductive boot_event : Type :=
| PinMode (pin : Z) (mode : pin_mode)
| Delay (ms : Z)
| Io (e : event).

(** A statement of [setup()]: it changes the board and logs. *)
Definition command : Type := world -> world * list boot_event.


Definition and_then (c1 c2 : command) : command :=
  fun w =>
    let (w1, e1) := c1 w in
    let (w2, e2) := c2 w1 in
    (w2, e1 ++ e2).

Notation "c1 ;;; c2" := (and_then c1 c2)
  (at level 62, right associativity) : gate_scope.









(** * Sixteen-bit time *)

Lemma UINT16_range z : 0 <= UINT16 z < 2 ^ 16.
Proof. unfold UINT16. apply Z.mod_pos_bound. lia. Qed.

Lemma UINT16_small z : 0 <= z < 2 ^ 16 -> UINT16 z = z.
Proof. unfold UINT16. apply Z.mod_small. Qed.

Lemma UINT16_UINT32 z : UINT16 (UINT32 z) = UINT16 z.
Proof.
  unfold UINT16, UINT32.
  apply Z.mod_mod_divide.
  exists (2 ^ 16). reflexivity.
Qed.

Lemma seen_range tl tc : 0 <= seen tl tc < 2 ^ 16.
Proof. apply UINT16_range. Qed.

Lemma seen_reaches tl tc :
  0 <= tc < 2 ^ 16 -> UINT16 (tl + seen tl tc) = tc.
Proof.
  intros Htc. unfold seen, UINT16.
  rewrite Zplus_mod_idemp_r.
  replace (tl + (tc - tl)) with tc by lia.
  apply Z.mod_small. exact Htc.
Qed.

Lemma seen_gap t g : 0 <= g < 2 ^ 16 -> seen (UINT16 t) (UINT16 (t + g)) = g.
Proof.
  intros Hg. unfold seen, UINT16.
  rewrite <- Zminus_mod.
  replace (t + g - t) with g by lia.
  apply Z.mod_small. exact Hg.
Qed.

(** * Sequencing and logs *)

(** Runs straight-line code of the monad on the board of the goal. *)
Ltac run_primitives := unfold bind, digitalRead, digitalWrite, ret; cbn.

Lemma bind_unfold {A B} (m : M A) (k : A -> M B) (w : world) :
  bind m k w =
    match m w with
    | Done a w1 e1 => prepend e1 (k a w1)
    | Starved w1 e1 => Starved w1 e1
    end.
Proof. reflexivity. Qed.

(** The primitives in sequence. *)
Lemma bind_read (B : Type) (pin : Z) (k : bool -> M B) (w : world) :
  bind (digitalRead pin) k w =
    prepend [DigitalRead pin (pins w pin)] (k (pins w pin) w).
Proof. reflexivity. Qed.

Lemma bind_write (B : Type) (pin : Z) (v : bool) (k : unit -> M B) (w : world) :
  bind (digitalWrite pin v) k w =
    prepend [DigitalWrite pin v]
      (k tt (World (fun p => if p =? pin then v else pins w p) (clock w))).
Proof. reflexivity. Qed.

Lemma bind_millis (B : Type) (k : Z -> M B) (w : world) :
  bind millis k w =
    match clock w with
    | [] => Starved w []
    | t :: later =>
        prepend [Millis (UINT32 t)] (k (UINT32 t) (World (pins w) later))
    end.
Proof. unfold bind, millis. destruct (clock w); reflexivity. Qed.

Lemma events_of_prepend {A} e1 (r : result A) :
  events_of (prepend e1 r) = e1 ++ events_of r.
Proof. destruct r; reflexivity. Qed.

Lemma world_of_prepend {A} e1 (r : result A) :
  world_of (prepend e1 r) = world_of r.
Proof. destruct r; reflexivity. Qed.

Lemma prepend_done {A} e1 (r : result A) a w evs :
  prepend e1 r = Done a w evs ->
  exists e2, r = Done a w e2 /\ evs = e1 ++ e2.
Proof.
  destruct r as [a' w' e2 | w' e2]; cbn; intros H; inversion H; subst.
  exists e2. split; reflexivity.
Qed.

Lemma writes_to_app (pin : Z) (e1 e2 : list event) :
  writes_to pin (e1 ++ e2) = writes_to pin e1 ++ writes_to pin e2.
Proof.
  induction e1 as [|e e1 IH]; [reflexivity | ].
  destruct e as [p v | p v | t | b]; cbn; auto.
  destruct (p =? pin); cbn; rewrite IH; reflexivity.
Qed.

Lemma ticks_app (e1 e2 : list event) : ticks (e1 ++ e2) = ticks e1 ++ ticks e2.
Proof.
  induction e1 as [|e e1 IH]; [reflexivity | ].
  destruct e; cbn; rewrite IH; reflexivity.
Qed.

Lemma ticks_markers (bs : list bool) : ticks (map TimerTick bs) = bs.
Proof. induction bs as [|b bs IH]; cbn; [ | rewrite IH]; reflexivity. Qed.

Lemma Forall_dwell_ticks bs : Forall dwell_event (map TimerTick bs).
Proof. induction bs; cbn; constructor; cbn; auto. Qed.

(** Dwell events write no pin but the scope pin and read none but it. *)
Lemma dwell_writes_scope_only (evs : list event) (pin : Z) :
  Forall dwell_event evs -> pin <> SCOPE_PIN -> writes_to pin evs = [].
Proof.
  intros Hev Hpin.
  induction Hev as [|e l He _ IH]; [reflexivity | ].
  destruct e as [p v | p v | t | b]; cbn in *; auto.
  subst p. apply Z.eqb_neq in Hpin. rewrite Z.eqb_sym, Hpin. exact IH.
Qed.

Lemma dwell_reads_scope_only (evs : list event) :
  Forall dwell_event evs -> forall p, In p (reads evs) -> p = SCOPE_PIN.
Proof.
  intros Hev.
  induction Hev as [|e l He _ IH]; [intros p [] | ].
  destruct e as [q v | q v | t | b]; cbn in *; auto.
  intros p [Hp | Hp]; [congruence | auto].
Qed.

Lemma dwell_result_prepend (w w1 : world) (e : list event) r :
  Forall dwell_event e ->
  (forall p, p <> SCOPE_PIN -> pins w1 p = pins w p) ->
  dwell_result w1 r -> dwell_result w (prepend e r).
Proof.
  intros He Hw (Hev & Hpin & Hz).
  unfold dwell_result.
  rewrite events_of_prepend, world_of_prepend.
  split; [apply Forall_app; split; assumption | ].
  split.
  - intros p Hp. rewrite (Hpin p Hp). apply Hw. exact Hp.
  - destruct r as [[d' tl'] w' e' | w' e']; exact Hz.
Qed.

(** * The switch statement *)

(** What [step] does in each of the two waiting states, by the levels read. *)
Lemma step_wait_for_enable (w : world) :
  exists w' evs,
    step S_WAIT_FOR_ENABLE w =
      Done (if pins w SW_DISABLE && pins w SW_OPEN
            then S_WAIT_FOR_OPEN else S_WAIT_FOR_ENABLE, DEBOUNCE_MS) w' evs /\
    pins w' SOLENOID_EN = LOW /\ pins w' LED_DISABLE = HIGH.
Proof.
  unfold step. run_primitives.
  destruct (pins w SW_DISABLE); cbn; repeat eexists.
Qed.

Lemma step_wait_for_open (w : world) :
  exists w' evs,
    step S_WAIT_FOR_OPEN w =
      Done (if negb (pins w SW_DISABLE) then S_WAIT_FOR_ENABLE
            else if negb (pins w SW_OPEN) then S_OPEN
            else S_WAIT_FOR_OPEN, DEBOUNCE_MS) w' evs /\
    pins w' SOLENOID_EN = LOW /\ pins w' LED_DISABLE = LOW.
Proof.
  unfold step. run_primitives.
  destruct (pins w SW_DISABLE); cbn; repeat eexists.
Qed.

(** The switch statement always completes; it never touches the clock, the
    state it leaves is one of the four, it leaves [S_CLOSE] only with the
    LED lit, and the dwell it picks is one of the three constants. *)
Lemma step_returns (state : Z) (w : world) :
  exists state' delay_ms w1 evs,
    step state w = Done (state', delay_ms) w1 evs /\
    (state' = S_WAIT_FOR_ENABLE \/ state' = S_WAIT_FOR_OPEN \/
     state' = S_OPEN \/ state' = S_CLOSE) /\
    (state' = S_CLOSE -> pins w1 LED_DISABLE = HIGH) /\
    (delay_ms = DEBOUNCE_MS \/ delay_ms = SOLENOID_TIME_ON_MS \/
     delay_ms = SOLENOID_TIME_OFF_MS) /\
    clock w1 = clock w /\
    Forall (fun e => match e with Millis _ | TimerTick _ => False | _ => True end)
           evs.
Proof.
  unfold step.
  destruct (state =? S_WAIT_FOR_ENABLE) eqn:E1.
  { apply Z.eqb_eq in E1. subst state.
    run_primitives.
    destruct (pins w SW_DISABLE); cbn; [destruct (pins w SW_OPEN); cbn | ];
      do 4 eexists; (split; [reflexivity | ]);
      repeat split; auto; try discriminate; repeat constructor. }
  destruct (state =? S_WAIT_FOR_OPEN) eqn:E2.
  { apply Z.eqb_eq in E2. subst state.
    run_primitives.
    destruct (pins w SW_DISABLE); cbn; [destruct (pins w SW_OPEN); cbn | ];
      do 4 eexists; (split; [reflexivity | ]);
      repeat split; auto; try discriminate; repeat constructor. }
  destruct (state =? S_OPEN) eqn:E3; [ | destruct (state =? S_CLOSE) eqn:E4];
    cbn; do 4 eexists; (split; [reflexivity | ]);
    repeat split; auto 6; try discriminate; repeat constructor.
Qed.

(** * The catch-up loop *)

Lemma marks_zero d : 0 <= d -> marks d 0 = [].
Proof.
  intros Hd. unfold marks.
  replace (Z.min d 0) with 0 by lia. reflexivity.
Qed.

Lemma marks_spent g : 0 < g -> marks 0 g = false :: marks 0 (g - 1).
Proof.
  intros Hg. unfold marks.
  replace (Z.min 0 g) with 0 by lia.
  replace (Z.min 0 (g - 1)) with 0 by lia.
  cbn [Z.to_nat repeat app].
  replace (Z.to_nat (g - 0)) with (S (Z.to_nat (g - 1 - 0))) by lia.
  reflexivity.
Qed.

Lemma marks_counting d g :
  0 < d -> 0 < g -> marks d g = true :: marks (d - 1) (g - 1).
Proof.
  intros Hd Hg. unfold marks.
  replace (Z.to_nat (Z.min d g))
    with (S (Z.to_nat (Z.min (d - 1) (g - 1)))) by lia.
  replace (g - 1 - Z.min (d - 1) (g - 1)) with (g - Z.min d g) by lia.
  reflexivity.
Qed.

Lemma repeat_Z_add {A} (x : A) (a b : Z) :
  0 <= a -> 0 <= b ->
  repeat x (Z.to_nat a) ++ repeat x (Z.to_nat b) = repeat x (Z.to_nat (a + b)).
Proof.
  intros Ha Hb. rewrite Z2Nat.inj_add by assumption.
  symmetry. apply repeat_app.
Qed.

(** Markers of successive polls add up. *)
Lemma marks_app (d g n : Z) :
  0 <= d -> 0 <= g -> 0 <= n ->
  marks d g ++ marks (d - Z.min d g) n = marks d (g + n).
Proof.
  intros Hd Hg Hn. unfold marks.
  destruct (Z.le_gt_cases d g) as [Hle | Hgt].
  - replace (Z.min d g) with d by lia.
    replace (d - d) with 0 by lia.
    replace (Z.min 0 n) with 0 by lia.
    replace (Z.min d (g + n)) with d by lia.
    cbn [Z.to_nat repeat app].
    rewrite <- app_assoc, repeat_Z_add by lia.
    do 3 f_equal. lia.
  - replace (Z.min d g) with g by lia.
    replace (g - g) with 0 by lia.
    cbn [Z.to_nat repeat]. rewrite app_nil_r.
    rewrite app_assoc, repeat_Z_add by lia.
    f_equal; do 2 f_equal; lia.
Qed.

(** The catch-up loop, for any start within range and any [g] ticks to go:
    it returns, having run [g] passes, of which the first [min d g]
    decrement [delay_ms]; the board is untouched. *)
Lemma catch_up_spec (n : nat) :
  forall (fuel : nat) (d tl : Z) (w : world),
    0 <= d < 2 ^ 16 -> 0 <= tl < 2 ^ 16 ->
    Z.of_nat n < 2 ^ 16 -> (n <= fuel)%nat ->
    catch_up fuel d tl (UINT16 (tl + Z.of_nat n)) w =
      Done (d - Z.min d (Z.of_nat n), UINT16 (tl + Z.of_nat n)) w
           (map TimerTick (marks d (Z.of_nat n))).
Proof.
  induction n as [|n IH]; intros fuel d tl w Hd Htl Hn Hfuel.
  - replace (tl + Z.of_nat 0) with tl by lia.
    rewrite UINT16_small by exact Htl.
    destruct fuel; cbn [catch_up]; rewrite Z.eqb_refl;
      rewrite marks_zero by lia;
      replace (d - Z.min d (Z.of_nat 0)) with d by lia; reflexivity.
  - destruct fuel as [|fuel]; [lia | ].
    cbn [catch_up].
    assert (Hne : (tl =? UINT16 (tl + Z.of_nat (S n))) = false).
    { apply Z.eqb_neq. intro Heq.
      pose proof (seen_gap tl (Z.of_nat (S n))) as Hs.
      rewrite (UINT16_small tl Htl), <- Heq in Hs.
      unfold seen in Hs. rewrite Z.sub_diag in Hs.
      cbn in Hs. lia. }
    rewrite Hne.
    assert (Htc : UINT16 (tl + Z.of_nat (S n))
                  = UINT16 (UINT16 (tl + 1) + Z.of_nat n)).
    { unfold UINT16. rewrite Zplus_mod_idemp_l. f_equal. lia. }
    rewrite Htc.
    pose proof (UINT16_range (tl + 1)) as Htl'.
    destruct (d =? 0) eqn:Ed.
    + apply Z.eqb_eq in Ed. subst d.
      unfold bind, timer_tick, ret.
      rewrite (IH fuel 0 (UINT16 (tl + 1)) w) by lia.
      rewrite (marks_spent (Z.of_nat (S n))) by lia.
      replace (Z.of_nat (S n) - 1) with (Z.of_nat n) by lia.
      replace (0 - Z.min 0 (Z.of_nat (S n))) with (0 - Z.min 0 (Z.of_nat n))
        by lia.
      reflexivity.
    + apply Z.eqb_neq in Ed.
      unfold bind, timer_tick, ret.
      rewrite (UINT16_small (d - 1)) by lia.
      rewrite (IH fuel (d - 1) (UINT16 (tl + 1)) w) by lia.
      rewrite (marks_counting d (Z.of_nat (S n))) by lia.
      replace (Z.of_nat (S n) - 1) with (Z.of_nat n) by lia.
      replace (d - 1 - Z.min (d - 1) (Z.of_nat n))
        with (d - Z.min d (Z.of_nat (S n))) by lia.
      reflexivity.
Qed.

Lemma catch_up_total (d tl tc : Z) (w : world) :
  0 <= d < 2 ^ 16 -> 0 <= tl < 2 ^ 16 -> 0 <= tc < 2 ^ 16 ->
  catch_up (Z.to_nat (2 ^ 16)) d tl tc w =
    Done (d - Z.min d (seen tl tc), tc) w (map TimerTick (marks d (seen tl tc))).
Proof.
  intros Hd Htl Htc.
  pose proof (seen_range tl tc) as Hs.
  pose proof (catch_up_spec (Z.to_nat (seen tl tc)) (Z.to_nat (2 ^ 16)) d tl w)
    as H.
  rewrite Z2Nat.id in H by lia.
  rewrite (seen_reaches tl tc Htc) in H.
  apply H; lia.
Qed.

(** The catch-up loop, for any arguments and any outcome: it leaves the
    board alone and logs markers only. *)
Lemma catch_up_frame (fuel : nat) :
  forall d tl tc w,
    world_of (catch_up fuel d tl tc w) = w /\
    exists bs, events_of (catch_up fuel d tl tc w) = map TimerTick bs.
Proof.
  induction fuel as [|fuel IH]; intros d tl tc w; cbn [catch_up];
    destruct (tl =? tc); try (split; [reflexivity | exists []; reflexivity]).
  rewrite bind_unfold.
  destruct (d =? 0); cbn.
  - destruct (IH d (UINT16 (tl + 1)) tc w) as (Hw & bs & He).
    rewrite world_of_prepend, events_of_prepend, Hw, He.
    split; [reflexivity | exists (false :: bs); reflexivity].
  - destruct (IH (UINT16 (d - 1)) (UINT16 (tl + 1)) tc w) as (Hw & bs & He).
    rewrite world_of_prepend, events_of_prepend, Hw, He.
    split; [reflexivity | exists (true :: bs); reflexivity].
Qed.

(** * The polling loop and the dwell *)

Lemma wait_loop_frame (polls : nat) :
  forall d tl w, dwell_result w (wait_loop polls d tl w).
Proof.
  induction polls as [|polls IH]; intros d tl w; cbn [wait_loop];
    destruct (d =? 0) eqn:Ed.
  1, 3: apply Z.eqb_eq in Ed; cbn; repeat split; auto.
  - cbn. repeat split; auto.
  - rewrite bind_read, bind_write, bind_millis. cbn [clock pins].
    set (pins1 := fun p : Z => if p =? SCOPE_PIN
                               then negb (pins w SCOPE_PIN) else pins w p).
    assert (Hpins1 : forall p, p <> SCOPE_PIN -> pins1 p = pins w p).
    { intros p Hp. unfold pins1. apply Z.eqb_neq in Hp. rewrite Hp.
      reflexivity. }
    apply (dwell_result_prepend w w); [repeat constructor | auto | ].
    apply (dwell_result_prepend w (World pins1 (clock w)));
      [repeat constructor | exact Hpins1 | ].
    destruct (clock w) as [|t later].
    { cbn. repeat split; auto. }
    apply (dwell_result_prepend _ (World pins1 later));
      [repeat constructor | auto | ].
    rewrite bind_unfold, UINT16_UINT32.
    set (w1 := World pins1 later).
    destruct (catch_up_frame (Z.to_nat (2 ^ 16)) d tl (UINT16 t) w1)
      as (Hw & bs & He).
    destruct (catch_up (Z.to_nat (2 ^ 16)) d tl (UINT16 t) w1)
      as [[d1 tl1] w2 e2 | w2 e2]; cbn in Hw, He; subst w2 e2.
    + apply (dwell_result_prepend w1 w1);
        [apply Forall_dwell_ticks | auto | apply IH].
    + cbn. repeat split; auto. apply Forall_dwell_ticks.
Qed.

Lemma wait_unfold (d : Z) (w : world) :
  wait d w =
    match clock w with
    | [] => Starved w []
    | t :: later =>
        prepend [Millis (UINT32 t)]
          (wait_loop (S (length later)) d (UINT16 t) (World (pins w) later))
    end.
Proof.
  unfold wait. rewrite bind_millis.
  destruct (clock w) as [|t later]; [reflexivity | ].
  cbn [clock]. rewrite UINT16_UINT32. reflexivity.
Qed.

Lemma wait_frame (d : Z) (w : world) : dwell_result w (wait d w).
Proof.
  rewrite wait_unfold.
  destruct (clock w) as [|t later].
  - cbn. repeat split; auto.
  - apply (dwell_result_prepend w (World (pins w) later));
      [repeat constructor | auto | apply wait_loop_frame].
Qed.

(** A completed dwell starts by taking [time_last] from the clock. *)
Lemma wait_done_starts_with_millis (d : Z) (w : world) r w' evs :
  wait d w = Done r w' evs -> exists t rest, evs = Millis t :: rest.
Proof.
  rewrite wait_unfold.
  destruct (clock w) as [|t later]; [discriminate | ].
  intros H. apply prepend_done in H. destruct H as (e2 & _ & ->).
  exists (UINT32 t), e2. reflexivity.
Qed.

Lemma observed_nonneg (rs : list Z) : forall tl, 0 <= observed tl rs.
Proof.
  induction rs as [|t rs IH]; intros tl; cbn [observed]; [lia | ].
  pose proof (seen_range tl (UINT16 t)). pose proof (IH (UINT16 t)). lia.
Qed.

(** The polling loop on a clock that lets it see at least [d] ticks: it
    returns with [delay_ms] 0 at the first poll [k] by which [d] ticks were
    seen, and its markers are those of [d] counted out of the ticks seen. *)
Lemma wait_loop_spec (rs : list Z) :
  forall (polls : nat) (d tl : Z) (pins0 : Z -> bool),
    0 <= d < 2 ^ 16 -> 0 <= tl < 2 ^ 16 ->
    d <= observed tl rs -> (length rs <= polls)%nat ->
    exists k tl' w' evs,
      wait_loop polls d tl (World pins0 rs) = Done (0, tl') w' evs /\
      clock w' = skipn k rs /\
      d <= observed tl (firstn k rs) /\
      (forall j, (j < k)%nat -> observed tl (firstn j rs) < d) /\
      ticks evs = marks d (observed tl (firstn k rs)).
Proof.
  induction rs as [|t rs IH]; intros polls d tl pins0 Hd Htl Hobs Hpolls.
  - cbn [observed] in Hobs. assert (d = 0) by lia. subst d.
    exists 0%nat, tl, (World pins0 []), [].
    destruct polls; cbn; repeat split; auto; try lia.
  - destruct (d =? 0) eqn:Ed.
    + apply Z.eqb_eq in Ed. subst d.
      exists 0%nat, tl, (World pins0 (t :: rs)), [].
      destruct polls; cbn; repeat split; auto; try lia.
    + apply Z.eqb_neq in Ed.
      destruct polls as [|polls]; [cbn in Hpolls; lia | ].
      cbn [length] in Hpolls. cbn [observed] in Hobs.
      cbn [wait_loop]. apply Z.eqb_neq in Ed. rewrite Ed.
      apply Z.eqb_neq in Ed.
      rewrite bind_read, bind_write, bind_millis. cbn [clock pins].
      rewrite bind_unfold, UINT16_UINT32.
      pose proof (UINT16_range t) as Htc.
      rewrite catch_up_total by assumption.
      set (g := seen tl (UINT16 t)) in *.
      pose proof (seen_range tl (UINT16 t)) as Hg. fold g in Hg.
      set (pins1 := fun p : Z => if p =? SCOPE_PIN
                                 then negb (pins0 SCOPE_PIN) else pins0 p).
      pose proof (observed_nonneg rs (UINT16 t)) as Hrest.
      destruct (IH polls (d - Z.min d g) (UINT16 t) pins1)
        as (k & tl' & w' & evs & Hrun & Hclock & Hle & Hmin & Hticks);
        [lia | lia | lia | lia | ].
      rewrite Hrun. cbn [prepend].
      exists (S k), tl', w'. eexists. split; [reflexivity | ].
      cbn [skipn firstn observed]. fold g.
      pose proof (observed_nonneg (firstn k rs) (UINT16 t)) as Hnn.
      repeat split.
      * exact Hclock.
      * lia.
      * intros [|j] Hj; cbn [firstn observed]; [lia | ].
        fold g. assert (Hjk : (j < k)%nat) by lia.
        specialize (Hmin j Hjk).
        pose proof (observed_nonneg (firstn j rs) (UINT16 t)). lia.
      * cbn [app ticks]. rewrite ticks_app, ticks_markers, Hticks.
        apply marks_app; lia.
Qed.

(** With fewer than 2^16 ticks between polls, the loop sees every tick. *)
Lemma observed_timeline (gaps : list Z) :
  forall t,
    Forall (fun g => 0 <= g < 2 ^ 16) gaps ->
    observed (UINT16 t) (timeline t gaps) = total gaps.
Proof.
  induction gaps as [|g gaps IH]; intros t Hall; [reflexivity | ].
  inversion Hall as [|? ? Hg Hrest]; subst.
  cbn [timeline observed total fold_right].
  rewrite seen_gap by exact Hg.
  rewrite IH by exact Hrest. reflexivity.
Qed.

Lemma firstn_timeline (k : nat) :
  forall t gaps, firstn k (timeline t gaps) = timeline t (firstn k gaps).
Proof.
  induction k as [|k IH]; intros t [|g gaps]; cbn; try reflexivity.
  rewrite IH. reflexivity.
Qed.

Lemma gaps_firstn (k : nat) :
  forall gaps,
    Forall (fun g => 0 <= g < 2 ^ 16) gaps ->
    Forall (fun g => 0 <= g < 2 ^ 16) (firstn k gaps).
Proof.
  induction k as [|k IH]; intros gaps Hall; [constructor | ].
  destruct Hall as [|g gaps Hg Hrest]; constructor; auto.
Qed.

(** * One call of [loop()] *)

(** [loop()] in terms of its three parts. *)
Lemma loop_unfold (state : Z) (w : world) state' delay_ms w1 sw :
  step state w = Done (state', delay_ms) w1 sw ->
  loop state w =
    match wait delay_ms w1 with
    | Done _ w2 dw =>
        Done state'
             (World (fun p => if p =? SOLENOID_EN then LOW else pins w2 p)
                    (clock w2))
             (sw ++ dw ++ [DigitalWrite SOLENOID_EN LOW])
    | Starved w2 dw => Starved w2 (sw ++ dw)
    end.
Proof.
  intros Hs. unfold loop. rewrite bind_unfold, Hs.
  rewrite bind_unfold.
  destruct (wait delay_ms w1) as [r w2 dw | w2 dw]; reflexivity.
Qed.

(** [loop()] returns, in any state, once the clock has moved on by the
    longest dwell in steps the 16-bit counters can follow. *)
Lemma loop_returns (state : Z) (pins0 : Z -> bool) (t0 : Z) (gaps : list Z) :
  Forall (fun g => 0 <= g < 2 ^ 16) gaps ->
  SOLENOID_TIME_OFF_MS <= total gaps ->
  exists state' w' evs,
    loop state (World pins0 (t0 :: timeline t0 gaps)) = Done state' w' evs.
Proof.
  intros Hgaps Htotal.
  destruct (step_returns state (World pins0 (t0 :: timeline t0 gaps)))
    as (st1 & d & w1 & sw & Hs & _ & _ & Hd & Hclock & _).
  rewrite (loop_unfold _ _ _ _ _ _ Hs), wait_unfold, Hclock.
  cbn [clock].
  destruct (wait_loop_spec (timeline t0 gaps) (S (length (timeline t0 gaps)))
              d (UINT16 t0) (pins w1))
    as (k & tl & w' & evs & Hrun & _).
  - unfold DEBOUNCE_MS, SOLENOID_TIME_ON_MS, SOLENOID_TIME_OFF_MS in Hd. lia.
  - apply UINT16_range.
  - rewrite observed_timeline by exact Hgaps.
    unfold DEBOUNCE_MS, SOLENOID_TIME_ON_MS, SOLENOID_TIME_OFF_MS in *. lia.
  - lia.
  - rewrite Hrun. cbn [prepend]. do 3 eexists. reflexivity.
Qed.

(** A call of [loop()] in [S_CLOSE], whatever its outcome: the switch
    statement writes the solenoid line and nothing else, and nothing in the
    whole call writes the LED line, which keeps its level. *)
Lemma loop_close_keeps_led (w : world) :
  (exists w1,
     step S_CLOSE w =
       Done (S_WAIT_FOR_ENABLE, SOLENOID_TIME_OFF_MS) w1
            [DigitalWrite SOLENOID_EN LOW]) /\
  writes_to LED_DISABLE (events_of (loop S_CLOSE w)) = [] /\
  pins (world_of (loop S_CLOSE w)) LED_DISABLE = pins w LED_DISABLE.
Proof.
  set (w1 := World (fun p => if p =? SOLENOID_EN then LOW else pins w p)
                   (clock w)).
  assert (Hs : step S_CLOSE w =
               Done (S_WAIT_FOR_ENABLE, SOLENOID_TIME_OFF_MS) w1
                    [DigitalWrite SOLENOID_EN LOW]) by reflexivity.
  split; [exists w1; exact Hs | ].
  rewrite (loop_unfold _ _ _ _ _ _ Hs).
  pose proof (wait_frame SOLENOID_TIME_OFF_MS w1) as (Hev & Hpin & _).
  specialize (Hpin LED_DISABLE).
  assert (Hno : writes_to LED_DISABLE
                  (events_of (wait SOLENOID_TIME_OFF_MS w1)) = [])
    by (apply dwell_writes_scope_only; [exact Hev | discriminate]).
  destruct (wait SOLENOID_TIME_OFF_MS w1) as [r w2 dw | w2 dw];
    cbn [events_of world_of] in *.
  - split.
    + rewrite !writes_to_app, Hno. reflexivity.
    + cbn. apply Hpin. discriminate.
  - split.
    + rewrite writes_to_app, Hno. reflexivity.
    + cbn. apply Hpin. discriminate.
Qed.

(** * The state machine *)

(** C1. Whatever the state and the switches, one step writes the solenoid
    line exactly once, and the level written (which is the level of the line
    after the step) is HIGH if and only if the state is [S_OPEN]; this
    covers the default branch. *)
Theorem step_solenoid_on_iff_open (state : Z) (w : world) :
  exists state' delay_ms w' evs v,
    step state w = Done (state', delay_ms) w' evs /\
    writes_to SOLENOID_EN evs = [v] /\
    pins w' SOLENOID_EN = v /\
    (v = HIGH <-> state = S_OPEN).
Proof.
  unfold step.
  destruct (state =? S_WAIT_FOR_ENABLE) eqn:E1.
  { apply Z.eqb_eq in E1. subst state.
    run_primitives.
    destruct (pins w SW_DISABLE); cbn;
      repeat eexists; try reflexivity; discriminate. }
  destruct (state =? S_WAIT_FOR_OPEN) eqn:E2.
  { apply Z.eqb_eq in E2. subst state.
    run_primitives.
    destruct (pins w SW_DISABLE); cbn;
      repeat eexists; try reflexivity; discriminate. }
  destruct (state =? S_OPEN) eqn:E3.
  { apply Z.eqb_eq in E3.
    cbn. repeat eexists; auto. }
  apply Z.eqb_neq in E3.
  destruct (state =? S_CLOSE) eqn:E4; cbn;
    repeat eexists; try reflexivity; try discriminate; contradiction.
Qed.

(** C2. In [S_WAIT_FOR_OPEN], with the disable switch and the open switch
    both asserted, the step goes to [S_WAIT_FOR_ENABLE], not to [S_OPEN]:
    the disable check comes first, and then the open switch is not even
    read. *)
Theorem wait_for_open_disable_first (w : world) :
  asserted w SW_DISABLE = true ->
  asserted w SW_OPEN = true ->
  exists state' delay_ms w' evs,
    step S_WAIT_FOR_OPEN w = Done (state', delay_ms) w' evs /\
    state' = S_WAIT_FOR_ENABLE /\
    state' <> S_OPEN /\
    reads evs = [SW_DISABLE].
Proof.
  unfold asserted. intros Hd _.
  apply negb_true_iff in Hd.
  unfold step. run_primitives.
  rewrite Hd. cbn.
  repeat eexists. discriminate.
Qed.

Lemma wait_for_open_disable_first_witness :
  let w := World (fun _ => LOW) [] in
  asserted w SW_DISABLE = true /\ asserted w SW_OPEN = true /\
  exists state' delay_ms w' evs,
    step S_WAIT_FOR_OPEN w = Done (state', delay_ms) w' evs /\
    state' = S_WAIT_FOR_ENABLE /\
    state' <> S_OPEN /\
    reads evs = [SW_DISABLE].
Proof.
  intro w. split; [reflexivity | split; [reflexivity | ]].
  apply (wait_for_open_disable_first w); reflexivity.
Defined.

(** C3. In [S_WAIT_FOR_ENABLE] the step stays in [S_WAIT_FOR_ENABLE] or goes
    to [S_WAIT_FOR_OPEN], and it goes to [S_WAIT_FOR_OPEN] exactly when
    neither switch is asserted; with disable released and open still held it
    stays. *)
Theorem wait_for_enable_needs_both_clear (w : world) (disable open : bool) :
  asserted w SW_DISABLE = disable ->
  asserted w SW_OPEN = open ->
  exists state' w' evs,
    step S_WAIT_FOR_ENABLE w = Done (state', DEBOUNCE_MS) w' evs /\
    (state' = S_WAIT_FOR_ENABLE \/ state' = S_WAIT_FOR_OPEN) /\
    (state' = S_WAIT_FOR_OPEN <-> disable = false /\ open = false) /\
    (disable = false /\ open = true -> state' = S_WAIT_FOR_ENABLE).
Proof.
  unfold asserted. intros Hd Ho.
  destruct (step_wait_for_enable w) as (w' & evs & Hs & _).
  exists (if pins w SW_DISABLE && pins w SW_OPEN
          then S_WAIT_FOR_OPEN else S_WAIT_FOR_ENABLE), w', evs.
  split; [exact Hs | ].
  subst disable open.
  destruct (pins w SW_DISABLE), (pins w SW_OPEN); cbn;
    repeat split; auto; try discriminate;
    intros []; discriminate.
Qed.

Lemma wait_for_enable_needs_both_clear_witness :
  let w := World (fun p => negb (p =? SW_OPEN)) [] in
  asserted w SW_DISABLE = false /\ asserted w SW_OPEN = true /\
  exists w' evs,
    step S_WAIT_FOR_ENABLE w = Done (S_WAIT_FOR_ENABLE, DEBOUNCE_MS) w' evs.
Proof.
  intro w. split; [reflexivity | split; [reflexivity | ]].
  destruct (wait_for_enable_needs_both_clear w false true)
    as (state' & w' & evs & Hs & _ & _ & Hstay); [reflexivity .. | ].
  rewrite (Hstay (conj eq_refl eq_refl)) in Hs.
  exists w', evs. exact Hs.
Defined.

(** C5. With [state] outside the four defined values the step takes the
    default branch: it finishes (there is no fault to raise), the new state
    is [S_WAIT_FOR_ENABLE], its only effect is to write the solenoid line
    LOW, and the dwell is [DEBOUNCE_MS]. *)
Theorem step_default_resets (state : Z) (w : world) :
  state <> S_WAIT_FOR_ENABLE -> state <> S_WAIT_FOR_OPEN ->
  state <> S_OPEN -> state <> S_CLOSE ->
  exists w',
    step state w =
      Done (S_WAIT_FOR_ENABLE, DEBOUNCE_MS) w' [DigitalWrite SOLENOID_EN LOW] /\
    pins w' SOLENOID_EN = LOW /\
    (forall p, p <> SOLENOID_EN -> pins w' p = pins w p) /\
    clock w' = clock w.
Proof.
  intros H1 H2 H3 H4.
  apply Z.eqb_neq in H1, H2, H3, H4.
  unfold step. rewrite H1, H2, H3, H4.
  cbn. eexists. split; [reflexivity | ].
  cbn. repeat split.
  intros p Hp. apply Z.eqb_neq in Hp.
  rewrite Hp. reflexivity.
Qed.

Lemma step_default_resets_witness :
  exists w',
    step 0 (World (fun _ => HIGH) []) =
      Done (S_WAIT_FOR_ENABLE, DEBOUNCE_MS) w' [DigitalWrite SOLENOID_EN LOW] /\
    pins w' SOLENOID_EN = LOW.
Proof.
  destruct (step_default_resets 0 (World (fun _ => HIGH) []))
    as (w' & Hs & Hp & _); try discriminate.
  exists w'. split; assumption.
Defined.

(** C9. The [S_OPEN] branch always goes to [S_CLOSE] and the [S_CLOSE]
    branch always goes to [S_WAIT_FOR_ENABLE], whatever the levels of the
    switch pins; the events of either branch are writes only, so neither
    switch is read. *)
Theorem open_close_unconditional (w : world) :
  (exists w' evs,
     step S_OPEN w = Done (S_CLOSE, SOLENOID_TIME_ON_MS) w' evs /\
     reads evs = [] /\
     evs = [DigitalWrite LED_DISABLE HIGH; DigitalWrite SOLENOID_EN HIGH]) /\
  (exists w' evs,
     step S_CLOSE w = Done (S_WAIT_FOR_ENABLE, SOLENOID_TIME_OFF_MS) w' evs /\
     reads evs = [] /\
     evs = [DigitalWrite SOLENOID_EN LOW]).
Proof.
  split; cbn; do 2 eexists; repeat split.
Qed.

(** C8, as stated, fails: on a board with every pin HIGH, the third step
    (disable clear, open pressed) goes to [S_OPEN] with the solenoid LOW and
    a dwell of 20, and it is the fourth step, out of [S_OPEN], that drives
    the solenoid HIGH for 500; so the run is not of the claimed form, where
    the third step reports (on, 500) and the fourth (off, 5000). *)
Lemma cycle_as_claimed_fails :
  let run := scenario (cycle_inputs false false false false)
                      S_WAIT_FOR_ENABLE (World (fun _ => HIGH) []) in
  nth 2 run (0, LOW, 0) = (S_OPEN, LOW, DEBOUNCE_MS) /\
  nth 3 run (0, LOW, 0) = (S_CLOSE, HIGH, SOLENOID_TIME_ON_MS) /\
  ~ (exists a1 t1 a2 t2 a5 t5,
       run = [(S_WAIT_FOR_OPEN, a1, t1); (S_WAIT_FOR_OPEN, a2, t2);
              (S_OPEN, HIGH, 500); (S_CLOSE, LOW, 5000);
              (S_WAIT_FOR_ENABLE, a5, t5)]).
Proof.
  cbv zeta. split; [reflexivity | split; [reflexivity | ]].
  intros (a1 & t1 & a2 & t2 & a5 & t5 & H).
  vm_compute in H. discriminate H.
Qed.

(** C8, amended. From [S_WAIT_FOR_ENABLE]: both switches clear, the step
    goes to [S_WAIT_FOR_OPEN]; both clear again, it stays; open pressed, it
    goes to [S_OPEN], solenoid still off, dwell 20; the next step, whatever
    the switches, goes to [S_CLOSE] with the solenoid on and dwell 500; the
    one after, whatever the switches, goes to [S_WAIT_FOR_ENABLE] with the
    solenoid off and dwell 5000. *)
Theorem cycle_scenario (w : world) (d4 o4 d5 o5 : bool) :
  scenario (cycle_inputs d4 o4 d5 o5) S_WAIT_FOR_ENABLE w =
    [(S_WAIT_FOR_OPEN, LOW, 20);
     (S_WAIT_FOR_OPEN, LOW, 20);
     (S_OPEN, LOW, 20);
     (S_CLOSE, HIGH, 500);
     (S_WAIT_FOR_ENABLE, LOW, 5000)].
Proof.
  reflexivity.
Qed.

(** * The constants *)

(** C7. The three times are 20, 500 and 5000 ms, and as exact rationals the
    on-time is at most 10% of a pulse-and-cool-down period, the cool-down at
    least 90% of it. *)
Theorem duty_cycle_constants :
  DEBOUNCE_MS = 20 /\ SOLENOID_TIME_ON_MS = 500 /\
  SOLENOID_TIME_OFF_MS = 5000 /\
  (inject_Z SOLENOID_TIME_ON_MS /
     (inject_Z SOLENOID_TIME_ON_MS + inject_Z SOLENOID_TIME_OFF_MS)
   <= 10 # 100)%Q /\
  (90 # 100 <=
   inject_Z SOLENOID_TIME_OFF_MS /
     (inject_Z SOLENOID_TIME_OFF_MS + inject_Z SOLENOID_TIME_ON_MS))%Q.
Proof.
  repeat split; try reflexivity; unfold Qle; cbn; lia.
Qed.

(** * The iteration *)

(** C4. Every completed call of [loop()], whatever the state: its events are
    those of the switch statement (all switch reads and the state's own
    solenoid and LED writes, none of them a clock reading), then those of the
    dwell, which starts with a clock reading, ran until [delay_ms] was 0 and
    touches nothing but the scope pin and the clock, and last of all the
    write of LOW to the solenoid line, which is therefore LOW when the call
    returns, before any switch is read again. *)
Theorem solenoid_off_after_dwell
    (state : Z) (w : world) (state' : Z) (w' : world) (evs : list event) :
  loop state w = Done state' w' evs ->
  exists delay_ms w1 sw_evs time_last w2 dwell_evs,
    step state w = Done (state', delay_ms) w1 sw_evs /\
    wait delay_ms w1 = Done (0, time_last) w2 dwell_evs /\
    evs = sw_evs ++ dwell_evs ++ [DigitalWrite SOLENOID_EN LOW] /\
    Forall (fun e => match e with Millis _ | TimerTick _ => False | _ => True end)
           sw_evs /\
    (exists t rest, dwell_evs = Millis t :: rest) /\
    Forall dwell_event dwell_evs /\
    writes_to SOLENOID_EN dwell_evs = [] /\
    writes_to LED_DISABLE dwell_evs = [] /\
    (forall p, In p (reads dwell_evs) -> p = SCOPE_PIN) /\
    pins w' SOLENOID_EN = LOW.
Proof.
  intros Hloop.
  destruct (step_returns state w)
    as (st1 & d & w1 & sw & Hs & _ & _ & _ & _ & Hsw).
  rewrite (loop_unfold state w st1 d w1 sw Hs) in Hloop.
  pose proof (wait_frame d w1) as (Hev & _ & Hz).
  destruct (wait d w1) as [[d' tl] w2 dw | w2 dw] eqn:Hw; [ | discriminate].
  cbn in Hev, Hz. subst d'.
  inversion Hloop; subst st1 w' evs; clear Hloop.
  exists d, w1, sw, tl, w2, dw.
  repeat split; auto.
  - apply (wait_done_starts_with_millis d w1 _ _ _ Hw).
  - apply dwell_writes_scope_only; [exact Hev | discriminate].
  - apply dwell_writes_scope_only; [exact Hev | discriminate].
  - apply dwell_reads_scope_only. exact Hev.
Qed.

Lemma solenoid_off_after_dwell_witness :
  let w := World (fun _ => HIGH) [100; 350; 600] in
  let r := loop S_OPEN w in
  loop S_OPEN w = Done S_CLOSE (world_of r) (events_of r) /\
  writes_to SOLENOID_EN (events_of r) = [HIGH; LOW] /\
  pins (world_of r) SOLENOID_EN = LOW.
Proof.
  intros w r.
  assert (H : loop S_OPEN w = Done S_CLOSE (world_of r) (events_of r))
    by (vm_compute; reflexivity).
  destruct (solenoid_off_after_dwell S_OPEN w S_CLOSE _ _ H)
    as (d & w1 & sw & tl & w2 & dw & _ & _ & _ & _ & _ & _ & _ & _ & _ & Hlow).
  split; [exact H | split; [vm_compute; reflexivity | exact Hlow]].
Defined.

(** * Dwell accounting *)

(** C6, as stated, fails.  First clock: it advances by 65536 ticks between
    taking [time_last] and the first poll, more than the 20 requested, yet
    the 16-bit [time_cur] equals [time_last], no tick is seen, nothing is
    counted down, and the wait has not returned when the readings end.
    Second clock: 20 more ticks follow; the wait returns then, after 65556
    ticks, having run 20 catch-up passes in all, so 65536 ticks went by
    uncounted while [delay_ms] was not 0. *)
Lemma dwell_misses_long_gap :
  let w := World (fun _ => LOW) (0 :: timeline 0 [65536]) in
  let w2 := World (fun _ => LOW) (0 :: timeline 0 [65536; 20]) in
  20 <= total [65536] /\
  (forall r w' evs, wait 20 w <> Done r w' evs) /\
  ticks (events_of (wait 20 w)) = [] /\
  clock (world_of (wait 20 w2)) = [] /\
  ticks (events_of (wait 20 w2)) = repeat true 20.
Proof.
  cbv zeta. split; [cbn; lia | split; [ | split; [ | split]]].
  - intros r w' evs. vm_compute. discriminate.
  - vm_compute. reflexivity.
  - vm_compute. reflexivity.
  - vm_compute. reflexivity.
Qed.

(** C6, amended. A dwell of [D] ms on a clock that starts at [t0] and
    advances by [gaps] between successive polls, each gap below 2^16 ticks
    and [D] or more in all: the wait returns with [delay_ms] 0, at the first
    poll [k] by which [D] ticks have gone by; it ran one catch-up pass for
    each tick of those [k] gaps, and exactly the first [D] of these passes
    decremented [delay_ms]. *)
Theorem dwell_accounting
    (D t0 : Z) (gaps : list Z) (pins0 : Z -> bool) :
  0 <= D < 2 ^ 16 ->
  Forall (fun g => 0 <= g < 2 ^ 16) gaps ->
  D <= total gaps ->
  exists k time_last w' evs,
    wait D (World pins0 (t0 :: timeline t0 gaps)) = Done (0, time_last) w' evs /\
    clock w' = skipn k (timeline t0 gaps) /\
    D <= total (firstn k gaps) /\
    (forall j, (j < k)%nat -> total (firstn j gaps) < D) /\
    ticks evs =
      repeat true (Z.to_nat D) ++
      repeat false (Z.to_nat (total (firstn k gaps) - D)).
Proof.
  intros HD Hgaps Htotal.
  rewrite wait_unfold. cbn [clock pins].
  destruct (wait_loop_spec (timeline t0 gaps)
              (S (length (timeline t0 gaps))) D (UINT16 t0) pins0)
    as (k & tl & w' & evs & Hrun & Hclock & Hle & Hmin & Hticks).
  - exact HD.
  - apply UINT16_range.
  - rewrite observed_timeline by exact Hgaps. exact Htotal.
  - lia.
  - assert (Hfirst : forall j, observed (UINT16 t0) (firstn j (timeline t0 gaps))
                               = total (firstn j gaps)).
    { intros j. rewrite firstn_timeline.
      apply observed_timeline. apply gaps_firstn. exact Hgaps. }
    rewrite Hfirst in Hle, Hticks.
    rewrite Hrun. cbn [prepend].
    exists k, tl, w'. eexists. split; [reflexivity | ].
    repeat split.
    + exact Hclock.
    + exact Hle.
    + intros j Hj. rewrite <- Hfirst. apply Hmin. exact Hj.
    + cbn [app ticks]. rewrite Hticks. unfold marks.
      replace (Z.min D (total (firstn k gaps))) with D by lia.
      reflexivity.
Qed.

Lemma dwell_accounting_witness :
  0 <= 20 < 2 ^ 16 /\
  Forall (fun g => 0 <= g < 2 ^ 16) [1; 0; 7; 30; 5] /\
  20 <= total [1; 0; 7; 30; 5] /\
  exists k time_last w' evs,
    wait 20 (World (fun _ => LOW) (4294967290 :: timeline 4294967290 [1; 0; 7; 30; 5]))
      = Done (0, time_last) w' evs /\
    clock w' = skipn k (timeline 4294967290 [1; 0; 7; 30; 5]) /\
    20 <= total (firstn k [1; 0; 7; 30; 5]) /\
    (forall j, (j < k)%nat -> total (firstn j [1; 0; 7; 30; 5]) < 20) /\
    ticks evs =
      repeat true (Z.to_nat 20) ++
      repeat false (Z.to_nat (total (firstn k [1; 0; 7; 30; 5]) - 20)).
Proof.
  assert (Hgaps : Forall (fun g => 0 <= g < 2 ^ 16) [1; 0; 7; 30; 5])
    by (repeat constructor; lia).
  split; [lia | split; [exact Hgaps | split; [cbn; lia | ]]].
  apply (dwell_accounting 20 4294967290 [1; 0; 7; 30; 5] (fun _ => LOW));
    [lia | exact Hgaps | cbn; lia].
Defined.

(** * Reachable executions *)

(** C10. In every execution from the initial state: [state] is one of the
    four defined values, so the switch statement never takes its default
    branch; and whenever a call of [loop()] starts in [S_CLOSE], the LED is
    lit, the switch statement does nothing but write the solenoid line LOW,
    no event of the call up to its end (or up to where the clock readings
    end) writes the LED line, and the LED is still lit then. *)
Theorem reachable_states_defined (state : Z) (w : world) :
  reachable state w ->
  (state = S_WAIT_FOR_ENABLE \/ state = S_WAIT_FOR_OPEN \/
   state = S_OPEN \/ state = S_CLOSE) /\
  (state = S_CLOSE ->
     pins w LED_DISABLE = HIGH /\
     (exists w1,
        step state w =
          Done (S_WAIT_FOR_ENABLE, SOLENOID_TIME_OFF_MS) w1
               [DigitalWrite SOLENOID_EN LOW]) /\
     writes_to LED_DISABLE (events_of (loop state w)) = [] /\
     pins (world_of (loop state w)) LED_DISABLE = HIGH).
Proof.
  intros Hreach.
  assert (Hinv : (state = S_WAIT_FOR_ENABLE \/ state = S_WAIT_FOR_OPEN \/
                  state = S_OPEN \/ state = S_CLOSE) /\
                 (state = S_CLOSE -> pins w LED_DISABLE = HIGH)).
  { induction Hreach as [w | state w state' w' evs _ IH Hloop
                           | state w w' _ IH Henv].
    - split; [auto | discriminate].
    - destruct (step_returns state w)
        as (st1 & d & w1 & sw & Hs & Hvalid & Hled & _ & _ & _).
      rewrite (loop_unfold _ _ _ _ _ _ Hs) in Hloop.
      pose proof (wait_frame d w1) as (_ & Hpin & _).
      destruct (wait d w1) as [r w2 dw | w2 dw]; [ | discriminate].
      inversion Hloop; subst st1 w' evs; clear Hloop.
      split; [exact Hvalid | ].
      intros Hclose. cbn. rewrite <- (Hled Hclose).
      apply Hpin. discriminate.
    - split; [apply IH | ].
      intros Hclose. rewrite Henv by discriminate. apply IH. exact Hclose. }
  destruct Hinv as (Hvalid & Hled).
  split; [exact Hvalid | ].
  intros Hclose. specialize (Hled Hclose). subst state.
  destruct (loop_close_keeps_led w) as (Hstep & Hno & Hkeep).
  repeat split; auto. congruence.
Qed.

Lemma reachable_states_defined_witness :
  reachable S_CLOSE board3 /\
  pins board3 LED_DISABLE = HIGH /\
  writes_to LED_DISABLE (events_of (loop S_CLOSE board3)) = [].
Proof.
  assert (Hreach : reachable S_CLOSE board3).
  { apply (reach_loop S_OPEN board2 S_CLOSE board3
                      (events_of (loop S_OPEN board2)));
      [ | vm_compute; reflexivity].
    apply (reach_loop S_WAIT_FOR_OPEN (set_switches false true board1)
                      S_OPEN board2
                      (events_of (loop S_WAIT_FOR_OPEN
                                    (set_switches false true board1))));
      [ | vm_compute; reflexivity].
    apply (reach_env S_WAIT_FOR_OPEN board1).
    - apply (reach_loop S_WAIT_FOR_ENABLE board0 S_WAIT_FOR_OPEN board1
                        (events_of (loop S_WAIT_FOR_ENABLE board0)));
        [apply reach_start | vm_compute; reflexivity].
    - intros p Ho Hd. apply Z.eqb_neq in Ho, Hd.
      unfold set_switches. cbn [pins]. rewrite Hd, Ho. reflexivity. }
  destruct (reachable_states_defined S_CLOSE board3 Hreach)
    as (_ & Hclose).
  destruct (Hclose eq_refl) as (Hled & _ & Hno & _).
  split; [exact Hreach | split; [exact Hled | exact Hno]].
Defined.

(** * The switch statement and the transition table *)

(** The table row a value of [state] is handled by: the next value, the
    dwell and the LED level after the step; any other value goes the way of
    the default branch. *)
Lemma step_summary (state : Z) (w : world) :
  exists w1 evs,
    step state w =
      Done (match decode state with
            | Some g => code_of (table_next g (asserted w SW_DISABLE)
                                              (asserted w SW_OPEN))
            | None => S_WAIT_FOR_ENABLE
            end,
            match decode state with
            | Some g => table_dwell g
            | None => DEBOUNCE_MS
            end) w1 evs /\
    writes_to SOLENOID_EN evs = [state =? S_OPEN] /\
    pins w1 SOLENOID_EN = (state =? S_OPEN) /\
    pins w1 LED_DISABLE =
      match decode state with
      | Some g => table_indicator g (pins w LED_DISABLE)
      | None => pins w LED_DISABLE
      end /\
    clock w1 = clock w.
Proof.
  unfold decode, step, asserted.
  destruct (state =? S_WAIT_FOR_ENABLE) eqn:E1;
    [ | destruct (state =? S_WAIT_FOR_OPEN) eqn:E2;
        [ | destruct (state =? S_OPEN) eqn:E3;
            [ | destruct (state =? S_CLOSE) eqn:E4 ] ] ].
  all: try (apply Z.eqb_eq in E1; subst state).
  all: try (apply Z.eqb_eq in E2; subst state).
  all: try (apply Z.eqb_eq in E4; subst state).
  all: run_primitives.
  1, 2: destruct (pins w SW_DISABLE); cbn;
        [destruct (pins w SW_OPEN); cbn | ].
  all: do 2 eexists; (split; [reflexivity | ]); cbn.
  all: repeat split; auto.
Qed.

(** The switch statement writes the solenoid and LED lines only. *)
Lemma step_frame (state : Z) (w : world) (p : Z) :
  p <> SOLENOID_EN -> p <> LED_DISABLE ->
  pins (world_of (step state w)) p = pins w p /\
  writes_to p (events_of (step state w)) = [].
Proof.
  intros H1 H2.
  assert (Hs : (SOLENOID_EN =? p) = false) by (apply Z.eqb_neq; congruence).
  assert (Hl : (LED_DISABLE =? p) = false) by (apply Z.eqb_neq; congruence).
  apply Z.eqb_neq in H1, H2.
  unfold step.
  destruct (state =? S_WAIT_FOR_ENABLE);
    [ | destruct (state =? S_WAIT_FOR_OPEN);
        [ | destruct (state =? S_OPEN); [ | destruct (state =? S_CLOSE) ] ] ].
  all: unfold bind, digitalRead, digitalWrite, ret; cbn -[Z.eqb].
  1, 2: destruct (pins w SW_DISABLE); cbn -[Z.eqb];
        [destruct (pins w SW_OPEN); cbn -[Z.eqb] | ].
  all: rewrite ?H1, ?H2, ?Hs, ?Hl; split; reflexivity.
Qed.

Lemma decode_code_of (g : GateState) : decode (code_of g) = Some g.
Proof. destruct g; reflexivity. Qed.

(** X1. The four rows of the transition table, read off the code: from the
    state [g] and the switches as sampled, the step gives the next state and
    the dwell of the table, leaves the solenoid and the LED at the table's
    levels ([Close] keeps the LED as it was), and leaves the clock alone. *)
Theorem step_implements_table (g : GateState) (w : world) :
  exists w1 evs,
    step (code_of g) w =
      Done (code_of (table_next g (asserted w SW_DISABLE) (asserted w SW_OPEN)),
            table_dwell g) w1 evs /\
    pins w1 SOLENOID_EN = table_actuator g /\
    pins w1 LED_DISABLE = table_indicator g (pins w LED_DISABLE) /\
    clock w1 = clock w.
Proof.
  destruct (step_summary (code_of g) w)
    as (w1 & evs & Hs & _ & Hsol & Hled & Hclock).
  rewrite decode_code_of in Hs, Hled.
  exists w1, evs. repeat split; try assumption.
  rewrite Hsol. destruct g; reflexivity.
Qed.

(** * Runs of [loop()] *)

Lemma pulses_app (e1 e2 : list event) :
  pulses (e1 ++ e2) = (pulses e1 + pulses e2)%nat.
Proof. unfold pulses. rewrite writes_to_app. apply count_occ_app. Qed.

(** One call, whatever the clock: the state it leaves if it returns, and
    what it writes to the solenoid line. *)
Lemma loop_summary (state : Z) (w : world) :
  match loop state w with
  | Done state' w' evs =>
      state' = match decode state with
               | Some g => code_of (table_next g (asserted w SW_DISABLE)
                                                 (asserted w SW_OPEN))
               | None => S_WAIT_FOR_ENABLE
               end /\
      writes_to SOLENOID_EN evs = [state =? S_OPEN; LOW] /\
      pins w' LED_DISABLE = match decode state with
                            | Some g => table_indicator g (pins w LED_DISABLE)
                            | None => pins w LED_DISABLE
                            end
  | Starved w' evs => writes_to SOLENOID_EN evs = [state =? S_OPEN]
  end.
Proof.
  destruct (step_summary state w)
    as (w1 & sw & Hs & Hwrites & _ & Hled & _).
  rewrite (loop_unfold _ _ _ _ _ _ Hs).
  pose proof (wait_frame
                (match decode state with
                 | Some g => table_dwell g
                 | None => DEBOUNCE_MS
                 end) w1) as (Hev & Hpin & _).
  destruct (wait _ w1) as [r w2 dw | w2 dw]; cbn [events_of world_of] in *.
  - split; [reflexivity | split].
    + rewrite !writes_to_app, Hwrites.
      rewrite (dwell_writes_scope_only dw) by (assumption || discriminate).
      reflexivity.
    + cbn. rewrite <- Hled. apply Hpin. discriminate.
  - rewrite writes_to_app, Hwrites.
    rewrite (dwell_writes_scope_only dw) by (assumption || discriminate).
    reflexivity.
Qed.

(** How many pulses a run can hold, by the state it starts in: one for each
    press, and one for each time both switches were found released, plus
    the pulse that is already due or armed. *)
Lemma run_pulses_bound (inputs : list (bool * bool)) :
  forall state w,
    (pulses (events_of (run inputs state w))
     <= presses inputs + (if (state =? S_OPEN)%Z then 1 else 0))%nat /\
    (pulses (events_of (run inputs state w))
     <= clears inputs +
        (if ((state =? S_OPEN) || (state =? S_WAIT_FOR_OPEN))%Z%bool
         then 1 else 0))%nat.
Proof.
  induction inputs as [|[d o] rest IH]; intros state w.
  - cbn. split; lia.
  - cbn [run]. rewrite bind_unfold.
    set (w0 := set_switches d o w).
    pose proof (loop_summary state w0) as Hloop.
    assert (Hd : asserted w0 SW_DISABLE = d) by (cbn; apply negb_involutive).
    assert (Ho : asserted w0 SW_OPEN = o) by (cbn; apply negb_involutive).
    rewrite Hd, Ho in Hloop.
    unfold presses, clears. cbn [filter fst snd].
    fold (presses rest). fold (clears rest).
    destruct (loop state w0) as [state' w' evs | w' evs].
    + destruct Hloop as (Hnext & Hwrites & _).
      rewrite events_of_prepend, pulses_app.
      destruct (IH state' w') as (IHp & IHc).
      assert (Hp : pulses evs = if state =? S_OPEN then 1%nat else 0%nat).
      { unfold pulses. rewrite Hwrites.
        destruct (state =? S_OPEN); reflexivity. }
      rewrite Hp. subst state'. unfold decode in *.
      destruct (state =? S_WAIT_FOR_ENABLE) eqn:E1;
        [apply Z.eqb_eq in E1; subst state | ].
      { destruct d, o; cbn in *; unfold presses, clears in *; lia. }
      destruct (state =? S_WAIT_FOR_OPEN) eqn:E2;
        [apply Z.eqb_eq in E2; subst state | ].
      { destruct d, o; cbn in *; unfold presses, clears in *; lia. }
      destruct (state =? S_OPEN) eqn:E3.
      { destruct d, o; cbn in *; unfold presses, clears in *; lia. }
      destruct (state =? S_CLOSE) eqn:E4;
        destruct d, o; cbn in *; unfold presses, clears in *; lia.
    + cbn [events_of]. unfold pulses. rewrite Hloop.
      destruct (state =? S_OPEN); cbn; split; lia.
Qed.

(** X2. No press, no pulse.  A run that does not start in [S_OPEN] drives the
    solenoid HIGH at most once for each call that found open pressed and
    disable released, whatever the clock does and wherever the run stops. *)
Theorem no_press_no_pulse (inputs : list (bool * bool)) (state : Z) (w : world) :
  state <> S_OPEN ->
  (pulses (events_of (run inputs state w)) <= presses inputs)%nat.
Proof.
  intros Hstate. apply Z.eqb_neq in Hstate.
  destruct (run_pulses_bound inputs state w) as (Hp & _).
  rewrite Hstate in Hp. lia.
Qed.

Lemma no_press_no_pulse_witness :
  let inputs := [(false, false); (false, true); (true, false)] in
  let w := World (fun _ => HIGH) [0; 20; 20; 40; 40; 300; 540] in
  S_WAIT_FOR_ENABLE <> S_OPEN /\
  pulses (events_of (run inputs S_WAIT_FOR_ENABLE w)) = 1%nat /\
  (pulses (events_of (run inputs S_WAIT_FOR_ENABLE w)) <= presses inputs)%nat.
Proof.
  intros inputs w.
  split; [discriminate | split; [vm_compute; reflexivity | ]].
  apply (no_press_no_pulse inputs S_WAIT_FOR_ENABLE w). discriminate.
Defined.

(** X3. With the disable switch found pressed at every call, a run that does
    not start in [S_OPEN] never writes HIGH to the solenoid line, whatever
    the open switch and the clock do. *)
Theorem disable_held_never_fires
    (inputs : list (bool * bool)) (state : Z) (w : world) :
  state <> S_OPEN ->
  Forall (fun i => fst i = true) inputs ->
  Forall (fun v => v = LOW)
         (writes_to SOLENOID_EN (events_of (run inputs state w))).
Proof.
  intros Hstate Hheld. apply Z.eqb_neq in Hstate.
  destruct (run_pulses_bound inputs state w) as (Hp & _).
  rewrite Hstate in Hp.
  assert (Hnone : presses inputs = 0%nat).
  { unfold presses. clear Hp.
    induction Hheld as [|[d o] rest Hd _ IH]; [reflexivity | ].
    cbn in Hd. subst d. cbn. exact IH. }
  rewrite Hnone in Hp.
  assert (Hzero : pulses (events_of (run inputs state w)) = 0%nat) by lia.
  unfold pulses in Hzero.
  apply Forall_forall. intros v Hin.
  destruct v; [ | reflexivity].
  exfalso. revert Hin. apply (count_occ_not_In bool_dec). exact Hzero.
Qed.

Lemma disable_held_never_fires_witness :
  let inputs := [(true, true); (true, false); (true, true)] in
  let w := World (fun _ => HIGH) [0; 20; 20; 40; 40; 60] in
  S_WAIT_FOR_OPEN <> S_OPEN /\
  Forall (fun i => fst i = true) inputs /\
  writes_to SOLENOID_EN (events_of (run inputs S_WAIT_FOR_OPEN w))
    = [LOW; LOW; LOW; LOW; LOW; LOW] /\
  Forall (fun v => v = LOW)
         (writes_to SOLENOID_EN (events_of (run inputs S_WAIT_FOR_OPEN w))).
Proof.
  intros inputs w.
  assert (Hheld : Forall (fun i => fst i = true) inputs)
    by (repeat constructor).
  split; [discriminate | split; [exact Hheld | split]].
  - vm_compute. reflexivity.
  - apply (disable_held_never_fires inputs S_WAIT_FOR_OPEN w);
      [discriminate | exact Hheld].
Defined.

(** X4. One pulse per release.  From any state, a run drives the solenoid HIGH
    at most once more than the number of calls that found both switches
    released; so with the open switch held down throughout there is at most
    one pulse. *)
Theorem one_pulse_per_release
    (inputs : list (bool * bool)) (state : Z) (w : world) :
  (pulses (events_of (run inputs state w)) <= clears inputs + 1)%nat /\
  (Forall (fun i => snd i = true) inputs ->
   (pulses (events_of (run inputs state w)) <= 1)%nat).
Proof.
  destruct (run_pulses_bound inputs state w) as (_ & Hc).
  assert (Hle : (pulses (events_of (run inputs state w))
                 <= clears inputs + 1)%nat).
  { destruct ((state =? S_OPEN) || (state =? S_WAIT_FOR_OPEN)); lia. }
  split; [exact Hle | ].
  intros Hheld.
  assert (Hnone : clears inputs = 0%nat).
  { unfold clears. clear Hle Hc.
    induction Hheld as [|[d o] rest Ho _ IH]; [reflexivity | ].
    cbn in Ho. subst o. cbn. rewrite andb_false_r. exact IH. }
  lia.
Qed.

(** * Requested duty cycle *)

(** What a scenario can still add to ten times its energized dwell over its
    requested dwell, by the state it starts in. *)
Lemma scenario_budget (inputs : list (bool * bool)) :
  forall state w,
    10 * energized (scenario inputs state w)
    <= requested (scenario inputs state w) +
       match decode state with
       | Some Open => 4500
       | Some WaitForOpen => 4480
       | Some WaitForEnable => 4460
       | Some Close => 0
       | None => 4440
       end.
Proof.
  induction inputs as [|[d o] rest IH]; intros state w.
  - cbn. destruct (decode state) as [[]|]; lia.
  - cbn [scenario].
    destruct (step_summary state (set_switches d o w))
      as (w1 & evs & Hs & _ & Hsol & _).
    rewrite Hs. cbn [requested energized]. rewrite Hsol. clear Hs.
    match goal with
    | |- context [scenario rest ?s w1] => specialize (IH s w1)
    end.
    assert (Hd : asserted (set_switches d o w) SW_DISABLE = d)
      by (cbn; apply negb_involutive).
    assert (Ho : asserted (set_switches d o w) SW_OPEN = o)
      by (cbn; apply negb_involutive).
    rewrite Hd, Ho in *.
    unfold decode in *.
    destruct (state =? S_WAIT_FOR_ENABLE) eqn:E1;
      [apply Z.eqb_eq in E1; subst state | ].
    { destruct d, o; cbn -[Z.mul Z.add] in *; lia. }
    destruct (state =? S_WAIT_FOR_OPEN) eqn:E2;
      [apply Z.eqb_eq in E2; subst state | ].
    { destruct d, o; cbn -[Z.mul Z.add] in *; lia. }
    destruct (state =? S_OPEN) eqn:E3.
    { cbn -[Z.mul Z.add] in *; lia. }
    destruct (state =? S_CLOSE) eqn:E4; cbn -[Z.mul Z.add] in *;
      unfold DEBOUNCE_MS in *; lia.
Qed.

(** X5. Over any sequence of steps, from any value of [state] and whatever the
    switches do, the dwell requested with the solenoid HIGH is at most a
    tenth of all the dwell requested plus 450 ms: ten times the one is at
    most the other plus 4500. *)
Theorem requested_duty_cycle
    (inputs : list (bool * bool)) (state : Z) (w : world) :
  10 * energized (scenario inputs state w)
  <= requested (scenario inputs state w) + 4500.
Proof.
  pose proof (scenario_budget inputs state w) as H.
  destruct (decode state) as [[]|]; lia.
Qed.

(** * The dwell on any clock *)

Lemma readings_app (e1 e2 : list event) :
  readings (e1 ++ e2) = readings e1 ++ readings e2.
Proof.
  induction e1 as [|e e1 IH]; [reflexivity | ].
  destruct e; cbn; rewrite IH; reflexivity.
Qed.

Lemma markers_quiet (bs : list bool) (pin : Z) :
  readings (map TimerTick bs) = [] /\ writes_to pin (map TimerTick bs) = [].
Proof. induction bs as [|b bs IH]; cbn; auto. Qed.

Lemma wait_loop_zero (polls : nat) (tl : Z) (w : world) :
  wait_loop polls 0 tl w = Done (0, tl) w [].
Proof. destruct polls; reflexivity. Qed.

Lemma wait_loop_no_fuel (d tl : Z) (w : world) :
  d <> 0 -> wait_loop 0 d tl w = Starved w [].
Proof.
  intros Hd. apply Z.eqb_neq in Hd. cbn [wait_loop]. rewrite Hd. reflexivity.
Qed.

(** A pass of the polling loop with no reading left: it toggles the scope
    pin and waits for the clock. *)
Lemma wait_loop_no_clock (polls : nat) (d tl : Z) (pins0 : Z -> bool) :
  d <> 0 ->
  exists w' evs,
    wait_loop (S polls) d tl (World pins0 []) = Starved w' evs.
Proof.
  intros Hd. apply Z.eqb_neq in Hd. cbn [wait_loop]. rewrite Hd.
  rewrite bind_read, bind_write, bind_millis. cbn [clock pins prepend].
  do 2 eexists. reflexivity.
Qed.

(** A pass of the polling loop that gets a reading. *)
Lemma wait_loop_poll (polls : nat) (d tl : Z) (pins0 : Z -> bool) t rs :
  d <> 0 -> 0 <= d < 2 ^ 16 -> 0 <= tl < 2 ^ 16 ->
  wait_loop (S polls) d tl (World pins0 (t :: rs)) =
    prepend [DigitalRead SCOPE_PIN (pins0 SCOPE_PIN)]
      (prepend [DigitalWrite SCOPE_PIN (negb (pins0 SCOPE_PIN))]
         (prepend [Millis (UINT32 t)]
            (prepend (map TimerTick (marks d (seen tl (UINT16 t))))
               (wait_loop polls (d - Z.min d (seen tl (UINT16 t))) (UINT16 t)
                  (World (fun p => if p =? SCOPE_PIN
                                   then negb (pins0 SCOPE_PIN) else pins0 p)
                         rs))))).
Proof.
  intros Hne Hd Htl. apply Z.eqb_neq in Hne.
  cbn [wait_loop]. rewrite Hne.
  rewrite bind_read, bind_write, bind_millis. cbn [clock pins].
  rewrite bind_unfold, UINT16_UINT32.
  rewrite catch_up_total by (assumption || apply UINT16_range).
  reflexivity.
Qed.

(** The polling loop when it returns, on any readings at all: it used the
    first [k] of them, [k] the first poll by which it had seen [d] ticks,
    counted as in [marks], and toggled the scope pin once per poll. *)
Lemma wait_loop_done (rs : list Z) :
  forall (polls : nat) (d tl : Z) (pins0 : Z -> bool) r w' evs,
    0 <= d < 2 ^ 16 -> 0 <= tl < 2 ^ 16 ->
    wait_loop polls d tl (World pins0 rs) = Done r w' evs ->
    exists k,
      (k <= length rs)%nat /\
      clock w' = skipn k rs /\
      d <= observed tl (firstn k rs) /\
      (forall j, (j < k)%nat -> observed tl (firstn j rs) < d) /\
      ticks evs = marks d (observed tl (firstn k rs)) /\
      readings evs = map UINT32 (firstn k rs) /\
      writes_to SCOPE_PIN evs = toggles k (pins0 SCOPE_PIN) /\
      pins w' SCOPE_PIN = Nat.iter k negb (pins0 SCOPE_PIN).
Proof.
  induction rs as [|t rs IH]; intros polls d tl pins0 r w' evs Hd Htl Hrun.
  - destruct (d =? 0) eqn:Ed.
    + apply Z.eqb_eq in Ed. subst d.
      rewrite wait_loop_zero in Hrun. inversion Hrun; subst.
      exists 0%nat. cbn. repeat split; auto; try lia.
    + apply Z.eqb_neq in Ed.
      destruct polls as [|polls].
      * rewrite wait_loop_no_fuel in Hrun by exact Ed. discriminate.
      * destruct (wait_loop_no_clock polls d tl pins0 Ed) as (w1 & e1 & Hst).
        rewrite Hst in Hrun. discriminate.
  - destruct (d =? 0) eqn:Ed.
    + apply Z.eqb_eq in Ed. subst d.
      rewrite wait_loop_zero in Hrun. inversion Hrun; subst.
      exists 0%nat. cbn. repeat split; auto; try lia.
    + apply Z.eqb_neq in Ed.
      destruct polls as [|polls];
        [rewrite wait_loop_no_fuel in Hrun by exact Ed; discriminate | ].
      rewrite wait_loop_poll in Hrun by assumption.
      pose proof (UINT16_range t) as Htc.
      set (g := seen tl (UINT16 t)) in *.
      pose proof (seen_range tl (UINT16 t)) as Hg. fold g in Hg.
      set (pins1 := fun p : Z => if p =? SCOPE_PIN
                                 then negb (pins0 SCOPE_PIN) else pins0 p) in *.
      apply prepend_done in Hrun. destruct Hrun as (e1 & Hrun & ->).
      apply prepend_done in Hrun. destruct Hrun as (e2 & Hrun & ->).
      apply prepend_done in Hrun. destruct Hrun as (e3 & Hrun & ->).
      apply prepend_done in Hrun. destruct Hrun as (e4 & Hrun & ->).
      destruct (IH polls (d - Z.min d g) (UINT16 t) pins1 r w' e4)
        as (k & Hk & Hclock & Hle & Hmin & Hticks & Hreads & Hscope & Hpin);
        [lia | lia | exact Hrun | ].
      exists (S k).
      cbn [length skipn firstn observed map]. fold g.
      pose proof (observed_nonneg (firstn k rs) (UINT16 t)) as Hnn.
      destruct (markers_quiet (marks d g) SCOPE_PIN) as (Hq1 & Hq2).
      repeat split.
      * lia.
      * exact Hclock.
      * lia.
      * intros [|j] Hj; cbn [firstn observed]; [lia | ].
        fold g. assert (Hjk : (j < k)%nat) by lia.
        specialize (Hmin j Hjk).
        pose proof (observed_nonneg (firstn j rs) (UINT16 t)). lia.
      * cbn [app ticks]. rewrite ticks_app, ticks_markers, Hticks.
        apply marks_app; lia.
      * cbn [app readings]. rewrite readings_app, Hq1, Hreads. reflexivity.
      * cbn [app writes_to]. rewrite Z.eqb_refl.
        rewrite writes_to_app, Hq2, Hscope. reflexivity.
      * rewrite Hpin. unfold pins1. rewrite Z.eqb_refl.
        symmetry. apply Nat.iter_succ_r.
Qed.

Lemma seen_at_most_gap (t g : Z) :
  0 <= g -> seen (UINT16 t) (UINT16 (t + g)) <= g.
Proof.
  intros Hg. unfold seen, UINT16.
  rewrite <- Zminus_mod.
  replace (t + g - t) with g by lia.
  apply Z.mod_le; lia.
Qed.

(** The loop never sees more ticks than a non-decreasing clock has made. *)
Lemma observed_at_most_total (gaps : list Z) :
  forall t,
    Forall (fun g => 0 <= g) gaps ->
    observed (UINT16 t) (timeline t gaps) <= total gaps.
Proof.
  induction gaps as [|g gaps IH]; intros t Hall; [cbn; lia | ].
  inversion Hall as [|? ? Hg Hrest]; subst.
  cbn [timeline observed total fold_right].
  pose proof (seen_at_most_gap t g Hg).
  specialize (IH (t + g) Hrest). unfold total in IH. lia.
Qed.

Lemma nonneg_firstn (k : nat) :
  forall gaps,
    Forall (fun g => 0 <= g) gaps -> Forall (fun g => 0 <= g) (firstn k gaps).
Proof.
  induction k as [|k IH]; intros gaps Hall; [constructor | ].
  destruct Hall as [|g gaps Hg Hrest]; constructor; auto.
Qed.

Lemma timeline_length (gaps : list Z) :
  forall t, length (timeline t gaps) = length gaps.
Proof.
  induction gaps as [|g gaps IH]; intros t; cbn; [ | rewrite IH]; reflexivity.
Qed.

(** The wait, when it returns, on a board whose clock starts at [t0] and
    moves on by non-negative [gaps]. *)
Lemma wait_elapsed
    (D t0 : Z) (gaps : list Z) (w : world)
    (r : Z * Z) (w' : world) (evs : list event) :
  0 <= D < 2 ^ 16 ->
  Forall (fun g => 0 <= g) gaps ->
  clock w = t0 :: timeline t0 gaps ->
  wait D w = Done r w' evs ->
  fst r = 0 /\
  exists k m,
    (k <= length gaps)%nat /\
    clock w' = skipn k (timeline t0 gaps) /\
    D <= total (firstn k gaps) /\
    ticks evs = repeat true (Z.to_nat D) ++ repeat false m.
Proof.
  intros HD Hgaps Hclk Hrun.
  split.
  { pose proof (wait_frame D w) as (_ & _ & Hz).
    rewrite Hrun in Hz. destruct r. exact Hz. }
  rewrite wait_unfold, Hclk in Hrun.
  apply prepend_done in Hrun. destruct Hrun as (e & Hrun & ->).
  destruct (wait_loop_done _ _ _ _ _ _ _ _ HD (UINT16_range t0) Hrun)
    as (k & Hk & Hclock & Hle & _ & Hticks & _).
  rewrite firstn_timeline in Hle, Hticks.
  pose proof (observed_at_most_total (firstn k gaps) t0
                (nonneg_firstn k gaps Hgaps)) as Hreal.
  exists k, (Z.to_nat (observed (UINT16 t0) (timeline t0 (firstn k gaps)) - D)).
  repeat split.
  - rewrite <- (timeline_length gaps t0). exact Hk.
  - exact Hclock.
  - lia.
  - cbn [app ticks]. rewrite Hticks. unfold marks.
    replace (Z.min D (observed (UINT16 t0) (timeline t0 (firstn k gaps))))
      with D by lia.
    reflexivity.
Qed.

(** X6. The dwell is never cut short.  On a clock that starts at [t0] and moves
    on by [gaps] between readings, by any amounts at all, 65536 and more
    included: if the wait for [D] ms returns, then [delay_ms] is 0, at least
    [D] ticks have gone by over the [k] polls it made, and exactly [D] of
    its catch-up passes decremented [delay_ms], all of them before any pass
    that did not. *)
Theorem wait_never_early
    (D t0 : Z) (gaps : list Z) (pins0 : Z -> bool)
    (r : Z * Z) (w' : world) (evs : list event) :
  0 <= D < 2 ^ 16 ->
  Forall (fun g => 0 <= g) gaps ->
  wait D (World pins0 (t0 :: timeline t0 gaps)) = Done r w' evs ->
  fst r = 0 /\
  exists k m,
    (k <= length gaps)%nat /\
    clock w' = skipn k (timeline t0 gaps) /\
    D <= total (firstn k gaps) /\
    ticks evs = repeat true (Z.to_nat D) ++ repeat false m.
Proof.
  intros HD Hgaps Hrun.
  apply (wait_elapsed D t0 gaps (World pins0 (t0 :: timeline t0 gaps)));
    [exact HD | exact Hgaps | reflexivity | exact Hrun].
Qed.

Lemma wait_never_early_witness :
  let gaps := [65536; 5; 70000] in
  let w := World (fun _ => LOW) (0 :: timeline 0 gaps) in
  0 <= 20 < 2 ^ 16 /\
  Forall (fun g => 0 <= g) gaps /\
  wait 20 w = Done (0, 4469) (world_of (wait 20 w)) (events_of (wait 20 w)) /\
  exists k m,
    (k <= length gaps)%nat /\
    clock (world_of (wait 20 w)) = skipn k (timeline 0 gaps) /\
    20 <= total (firstn k gaps) /\
    ticks (events_of (wait 20 w)) = repeat true (Z.to_nat 20) ++ repeat false m.
Proof.
  intros gaps w.
  assert (Hgaps : Forall (fun g => 0 <= g) gaps) by (repeat constructor; lia).
  assert (Hrun : wait 20 w
                 = Done (0, 4469) (world_of (wait 20 w)) (events_of (wait 20 w)))
    by (vm_compute; reflexivity).
  split; [lia | split; [exact Hgaps | split; [exact Hrun | ]]].
  apply (wait_never_early 20 0 gaps (fun _ => LOW) (0, 4469)
           (world_of (wait 20 w)) (events_of (wait 20 w)));
    [lia | exact Hgaps | exact Hrun].
Defined.

(** X7. The heartbeat.  A wait that returns has read the clock once to start
    and once per poll, and has toggled the scope pin exactly once per poll:
    after [k] polls the pin has been written [k] times, each time the
    opposite of its level before, and has been flipped [k] times in all. *)
Theorem scope_toggles_once_per_poll
    (D : Z) (w : world) (r : Z * Z) (w' : world) (evs : list event) :
  0 <= D < 2 ^ 16 ->
  wait D w = Done r w' evs ->
  exists k,
    length (readings evs) = S k /\
    writes_to SCOPE_PIN evs = toggles k (pins w SCOPE_PIN) /\
    pins w' SCOPE_PIN = Nat.iter k negb (pins w SCOPE_PIN).
Proof.
  intros HD Hrun.
  rewrite wait_unfold in Hrun.
  destruct w as [pins0 clk]. cbn [clock pins] in *.
  destruct clk as [|t rs]; [discriminate | ].
  apply prepend_done in Hrun. destruct Hrun as (e & Hrun & ->).
  destruct (wait_loop_done _ _ _ _ _ _ _ _ HD (UINT16_range t) Hrun)
    as (k & Hk & _ & _ & _ & _ & Hreads & Hscope & Hpin).
  exists k. repeat split.
  - cbn [app readings length]. rewrite Hreads, length_map.
    rewrite firstn_length_le by exact Hk. reflexivity.
  - exact Hscope.
  - exact Hpin.
Qed.

Lemma scope_toggles_once_per_poll_witness :
  let w := World (fun _ => LOW) [0; 3; 3; 10; 25; 90] in
  0 <= 20 < 2 ^ 16 /\
  wait 20 w = Done (0, 25) (world_of (wait 20 w)) (events_of (wait 20 w)) /\
  writes_to SCOPE_PIN (events_of (wait 20 w)) = [HIGH; LOW; HIGH; LOW] /\
  exists k,
    length (readings (events_of (wait 20 w))) = S k /\
    writes_to SCOPE_PIN (events_of (wait 20 w)) = toggles k (pins w SCOPE_PIN) /\
    pins (world_of (wait 20 w)) SCOPE_PIN = Nat.iter k negb (pins w SCOPE_PIN).
Proof.
  intros w.
  assert (Hrun : wait 20 w
                 = Done (0, 25) (world_of (wait 20 w)) (events_of (wait 20 w)))
    by (vm_compute; reflexivity).
  split; [lia | split; [exact Hrun | split; [vm_compute; reflexivity | ]]].
  apply (scope_toggles_once_per_poll 20 w (0, 25)
           (world_of (wait 20 w)) (events_of (wait 20 w)));
    [lia | exact Hrun].
Defined.

(** * What [loop()] leaves alone *)

(** X8. A call of [loop()], in any state and whatever its outcome, writes no
    pin but the solenoid, LED and scope lines: every other pin, the two
    switch inputs among them, keeps its level and is never written. *)
Theorem loop_drives_outputs_only (state : Z) (w : world) (p : Z) :
  p <> SCOPE_PIN -> p <> SOLENOID_EN -> p <> LED_DISABLE ->
  pins (world_of (loop state w)) p = pins w p /\
  writes_to p (events_of (loop state w)) = [].
Proof.
  intros Hscope Hsol Hled.
  destruct (step_frame state w p Hsol Hled) as (Hpin & Hnone).
  destruct (step_returns state w) as (st1 & d & w1 & sw & Hs & _).
  rewrite Hs in Hpin, Hnone. cbn [world_of events_of] in Hpin, Hnone.
  rewrite (loop_unfold _ _ _ _ _ _ Hs).
  pose proof (wait_frame d w1) as (Hev & Hkeep & _).
  assert (Hquiet : writes_to p (events_of (wait d w1)) = [])
    by (apply dwell_writes_scope_only; assumption).
  specialize (Hkeep p Hscope).
  assert (Hne : (SOLENOID_EN =? p) = false) by (apply Z.eqb_neq; congruence).
  apply Z.eqb_neq in Hsol.
  destruct (wait d w1) as [r w2 dw | w2 dw]; cbn [world_of events_of] in *.
  - split.
    + cbn [pins]. rewrite Hsol, Hkeep. exact Hpin.
    + rewrite !writes_to_app, Hnone, Hquiet. cbn [writes_to app].
      rewrite Hne. reflexivity.
  - split.
    + rewrite Hkeep. exact Hpin.
    + rewrite writes_to_app, Hnone, Hquiet. reflexivity.
Qed.

Lemma loop_drives_outputs_only_witness :
  let w := World (fun p => negb (p =? SW_OPEN)) [0; 20] in
  SW_OPEN <> SCOPE_PIN /\ SW_OPEN <> SOLENOID_EN /\ SW_OPEN <> LED_DISABLE /\
  pins (world_of (loop S_WAIT_FOR_OPEN w)) SW_OPEN = LOW /\
  writes_to SW_OPEN (events_of (loop S_WAIT_FOR_OPEN w)) = [].
Proof.
  intros w.
  destruct (loop_drives_outputs_only S_WAIT_FOR_OPEN w SW_OPEN)
    as (Hpin & Hnone); try discriminate.
  split; [discriminate | split; [discriminate | split; [discriminate | ]]].
  split; [rewrite Hpin; reflexivity | exact Hnone].
Defined.

(** * The disable LED *)

(** What holds between calls in every execution. *)
Lemma reachable_invariant (state : Z) (w : world) :
  reachable state w ->
  decode state <> None /\ (state = S_CLOSE -> pins w LED_DISABLE = HIGH).
Proof.
  induction 1 as [w | state w state' w' evs _ IH Hloop
                    | state w w' _ IH Henv].
  - split; discriminate.
  - pose proof (loop_summary state w) as Hsum. rewrite Hloop in Hsum.
    destruct Hsum as (Hnext & _ & Hled).
    destruct IH as (Hvalid & _).
    destruct (decode state) as [g|] eqn:Hg; [ | contradiction].
    subst state'. rewrite decode_code_of. split; [discriminate | ].
    intros Hclose. rewrite Hled.
    destruct g; try reflexivity;
      destruct (asserted w SW_DISABLE), (asserted w SW_OPEN);
      discriminate Hclose.
  - split; [apply IH | ].
    intros Hclose. rewrite Henv by discriminate. apply IH. exact Hclose.
Qed.

(** X9. In every execution from the initial state, a call of [loop()] that
    returns leaves the disable LED dark if it ran in [S_WAIT_FOR_OPEN], the
    one state in which a press opens the gate, and lit in every other case,
    the cool-down included. *)
Theorem led_dark_iff_armed
    (state : Z) (w : world) (state' : Z) (w' : world) (evs : list event) :
  reachable state w ->
  loop state w = Done state' w' evs ->
  pins w' LED_DISABLE = negb (state =? S_WAIT_FOR_OPEN).
Proof.
  intros Hreach Hloop.
  destruct (reachable_invariant state w Hreach) as (Hvalid & Hclose).
  pose proof (loop_summary state w) as Hsum. rewrite Hloop in Hsum.
  destruct Hsum as (_ & _ & Hled). rewrite Hled.
  unfold decode in *.
  destruct (state =? S_WAIT_FOR_ENABLE) eqn:E1;
    [apply Z.eqb_eq in E1; subst state; reflexivity | ].
  destruct (state =? S_WAIT_FOR_OPEN) eqn:E2; [reflexivity | ].
  destruct (state =? S_OPEN) eqn:E3; [reflexivity | ].
  destruct (state =? S_CLOSE) eqn:E4; [ | contradiction].
  apply Z.eqb_eq in E4. cbn. apply Hclose. exact E4.
Qed.

Lemma led_dark_iff_armed_witness :
  let w := set_switches false true board1 in
  reachable S_WAIT_FOR_OPEN w /\
  loop S_WAIT_FOR_OPEN w
    = Done S_OPEN board2 (events_of (loop S_WAIT_FOR_OPEN w)) /\
  pins board2 LED_DISABLE = LOW.
Proof.
  intros w.
  assert (Hreach : reachable S_WAIT_FOR_OPEN w).
  { apply (reach_env S_WAIT_FOR_OPEN board1).
    - apply (reach_loop S_WAIT_FOR_ENABLE board0 S_WAIT_FOR_OPEN board1
                        (events_of (loop S_WAIT_FOR_ENABLE board0)));
        [apply reach_start | vm_compute; reflexivity].
    - intros p Ho Hd. apply Z.eqb_neq in Ho, Hd.
      unfold w, set_switches. cbn [pins]. rewrite Hd, Ho. reflexivity. }
  assert (Hloop : loop S_WAIT_FOR_OPEN w
                  = Done S_OPEN board2 (events_of (loop S_WAIT_FOR_OPEN w)))
    by (vm_compute; reflexivity).
  split; [exact Hreach | split; [exact Hloop | ]].
  apply (led_dark_iff_armed S_WAIT_FOR_OPEN w S_OPEN board2 _ Hreach Hloop).
Defined.

(** * [setup()] *)


(** * How long a call lasts *)

(** X11. A call of [loop()] that returns has lasted at least the dwell of its
    state.  On a clock that moves on by any non-negative [gaps] between
    readings, the [k] readings the call polled span at least 20 ms, at
    least 500 ms if the call ran in [S_OPEN] (the pulse) and at least 5000
    ms if it ran in [S_CLOSE] (the cool-down). *)
Theorem call_lasts_its_dwell
    (state t0 : Z) (gaps : list Z) (pins0 : Z -> bool)
    (state' : Z) (w' : world) (evs : list event) :
  Forall (fun g => 0 <= g) gaps ->
  loop state (World pins0 (t0 :: timeline t0 gaps)) = Done state' w' evs ->
  exists k,
    (k <= length gaps)%nat /\
    clock w' = skipn k (timeline t0 gaps) /\
    DEBOUNCE_MS <= total (firstn k gaps) /\
    (state = S_OPEN -> SOLENOID_TIME_ON_MS <= total (firstn k gaps)) /\
    (state = S_CLOSE -> SOLENOID_TIME_OFF_MS <= total (firstn k gaps)).
Proof.
  intros Hgaps Hloop.
  destruct (step_summary state (World pins0 (t0 :: timeline t0 gaps)))
    as (w1 & sw & Hs & _ & _ & _ & Hclk).
  cbn [clock] in Hclk.
  rewrite (loop_unfold _ _ _ _ _ _ Hs) in Hloop.
  set (d := match decode state with
            | Some g => table_dwell g
            | None => DEBOUNCE_MS
            end) in *.
  assert (Hd : 0 <= d < 2 ^ 16).
  { unfold d. destruct (decode state) as [[]|];
      unfold table_dwell, DEBOUNCE_MS; lia. }
  destruct (wait d w1) as [r w2 dw | w2 dw] eqn:Hwait; [ | discriminate].
  inversion Hloop; subst state' w' evs; clear Hloop.
  destruct (wait_elapsed d t0 gaps w1 r w2 dw Hd Hgaps Hclk Hwait)
    as (_ & k & m & Hk & Hclock & Hle & _).
  exists k. cbn [clock].
  split; [exact Hk | split; [exact Hclock | ]].
  unfold d, decode in Hle.
  unfold DEBOUNCE_MS, SOLENOID_TIME_ON_MS, SOLENOID_TIME_OFF_MS.
  destruct (state =? S_WAIT_FOR_ENABLE) eqn:E1;
    [ | destruct (state =? S_WAIT_FOR_OPEN) eqn:E2;
        [ | destruct (state =? S_OPEN) eqn:E3;
            [ | destruct (state =? S_CLOSE) eqn:E4 ] ] ].
  all: unfold table_dwell in Hle.
  all: repeat match goal with
              | H : (_ =? _) = true |- _ => apply Z.eqb_eq in H
              | H : (_ =? _) = false |- _ => apply Z.eqb_neq in H
              end.
  all: unfold DEBOUNCE_MS in Hle.
  all: split; [lia | split; intros Hst]; subst state;
       try lia; try discriminate; try contradiction.
Qed.

Lemma call_lasts_its_dwell_witness :
  let gaps := [100; 65536; 300; 200] in
  let w := World (fun _ => HIGH) (7 :: timeline 7 gaps) in
  Forall (fun g => 0 <= g) gaps /\
  loop S_OPEN w = Done S_CLOSE (world_of (loop S_OPEN w))
                       (events_of (loop S_OPEN w)) /\
  exists k,
    (k <= length gaps)%nat /\
    clock (world_of (loop S_OPEN w)) = skipn k (timeline 7 gaps) /\
    SOLENOID_TIME_ON_MS <= total (firstn k gaps).
Proof.
  intros gaps w.
  assert (Hgaps : Forall (fun g => 0 <= g) gaps) by (repeat constructor; lia).
  assert (Hloop : loop S_OPEN w
                  = Done S_CLOSE (world_of (loop S_OPEN w))
                         (events_of (loop S_OPEN w)))
    by (vm_compute; reflexivity).
  split; [exact Hgaps | split; [exact Hloop | ]].
  destruct (call_lasts_its_dwell S_OPEN 7 gaps (fun _ => HIGH) S_CLOSE
              (world_of (loop S_OPEN w)) (events_of (loop S_OPEN w))
              Hgaps Hloop)
    as (k & Hk & Hclock & _ & Hon & _).
  exists k. split; [exact Hk | split; [exact Hclock | ]].
  apply Hon. reflexivity.
Defined.
